(** * cs-interview-rag: chunker, embedder, vector store and RAG pipeline

    A shallow embedding of the Python sources
    [ingestion/document_loader.py], [ingestion/chunker.py],
    [embeddings/embedder.py], [vectorstore/endee_store.py] and
    [rag/pipeline.py], together with the properties of them that the
    design document states and further properties read off the code. *)

From Stdlib Require Import ZArith Lia Ascii String.
From stdpp Require Import base option list gmap strings.

Open Scope Z_scope.

(** ** Python strings

    A Python [str] is a sequence of Unicode code points.  Indices are
    Python [int]s, modelled by [Z]; slicing and [rfind] normalise
    negative and out-of-range indices the way CPython does. *)

Module Py.

Definition char := N.
Definition str := list char.

(** ASCII literal of the source text as a [str]. *)
Definition lit (s : string) : str :=
  map N_of_ascii (list_ascii_of_string s).

Definition LF : char := 10%N.

(** [len(s)] *)
Definition len {A} (s : list A) : Z := Z.of_nat (length s).

(** [str.isspace] on one code point (CPython's [_PyUnicode_IsWhitespace]). *)
Definition isspace (c : char) : bool :=
  ((9 <=? c) && (c <=? 13) || (28 <=? c) && (c <=? 32)
   || (c =? 133) || (c =? 160) || (c =? 5760)
   || (8192 <=? c) && (c <=? 8202)
   || (c =? 8232) || (c =? 8233) || (c =? 8239) || (c =? 8287)
   || (c =? 12288))%N.

Fixpoint lstrip (s : str) : str :=
  match s with
  | [] => []
  | c :: s' => if isspace c then lstrip s' else s
  end.

Definition rstrip (s : str) : str := rev (lstrip (rev s)).

(** [s.strip()] *)
Definition strip (s : str) : str := rstrip (lstrip s).

(** Truth value of a sequence: [bool(s)]. *)
Definition truthy {A} (s : list A) : bool :=
  match s with [] => false | _ => true end.

(** Index normalisation of slices and of the [start]/[end] arguments of
    [rfind]: a negative index counts from the end, then the index is
    clipped to [0 .. n]. *)
Definition norm_index (n i : Z) : Z :=
  if i <? 0 then Z.max (i + n) 0 else Z.min i n.

(** [s[i:j]] *)
Definition slice {A} (s : list A) (i j : Z) : list A :=
  let lo := norm_index (len s) i in
  let hi := norm_index (len s) j in
  take (Z.to_nat (hi - lo)) (drop (Z.to_nat lo) s).

(** [s[:n]] for a non-negative literal [n] is [slice s 0 n]. *)

Fixpoint starts_with (sub s : str) : bool :=
  match sub, s with
  | [], _ => true
  | _ :: _, [] => false
  | a :: sub', b :: s' => (a =? b)%N && starts_with sub' s'
  end.

(** Candidates [lo + n - 1], ..., [lo], highest first. *)
Fixpoint rfind_down (s sub : str) (lo : Z) (n : nat) : Z :=
  match n with
  | O => -1
  | S m =>
      if starts_with sub (drop (Z.to_nat (lo + Z.of_nat m)) s)
      then lo + Z.of_nat m
      else rfind_down s sub lo m
  end.

(** [s.rfind(sub, i, j)]: the highest index [k] with
    [i' <= k <= j' - len(sub)] and [s[k:k+len(sub)] == sub], else [-1]. *)
Definition rfind (s sub : str) (i j : Z) : Z :=
  let lo := norm_index (len s) i in
  let hi := norm_index (len s) j in
  rfind_down s sub lo (Z.to_nat (hi - len sub - lo + 1)).

(** Decimal digits of a natural number, most significant first. *)
Fixpoint digits_fuel (fuel : nat) (n : N) (acc : str) : str :=
  match fuel with
  | O => acc
  | S f =>
      let acc' := (48 + n mod 10)%N :: acc in
      if (n <? 10)%N then acc' else digits_fuel f (n / 10)%N acc'
  end.

(** [str(z)] for an [int]. *)
Definition str_of_int (z : Z) : str :=
  let n := Z.to_N (Z.abs z) in
  let ds := digits_fuel (S (N.to_nat (N.log2 n))) n [] in
  if z <? 0 then 45%N :: ds else ds.

(** [sep.join(parts)] *)
Fixpoint join (sep : str) (parts : list str) : str :=
  match parts with
  | [] => []
  | [p] => p
  | p :: rest => p ++ sep ++ join sep rest
  end.

End Py.

(** ** ingestion/document_loader.py: the dataclass [Document] *)

Module Loader.
Import Py.

Record Document := mkDocument {
  doc_content : str;
  doc_source : str;
  doc_metadata : gmap string str
}.

End Loader.

(** ** ingestion/document_loader.py: [DocumentLoader]

    The loader reads the file system through [pathlib], [open] and
    [pypdf].  These are the interface [FileSystem]; the loader's own
    control flow is modelled over it. *)

Module LoaderModel.
Import Py.

(** What the loader raises: its own two exceptions, or one of the
    libraries it calls ([OSError], [UnicodeDecodeError], [ImportError],
    the errors of [pypdf], ...). *)
Inductive error (E : Type) :=
  | FileNotFoundError (msg : str)
  | ValueError (msg : str)
  | LibraryError (e : E).
Arguments FileNotFoundError {E} msg.
Arguments ValueError {E} msg.
Arguments LibraryError {E} e.

Inductive result (E A : Type) :=
  | Ok (a : A)
  | Raise (e : error E).
Arguments Ok {E A} a.
Arguments Raise {E A} e.


(** A value of the [metadata] dict of a loaded document. *)
Inductive value :=
  | VStr (s : str)
  | VInt (n : Z).

(** The dataclass [Document], with the metadata as the loader fills it. *)
Record Document := mkDocument {
  content : str;
  source : str;
  metadata : gmap string value
}.

(** [Path] objects and the calls made on them.  [E] is the type of the
    exceptions of the libraries.  [exists_], [is_dir], [is_file] and
    [absolute] are taken not to raise. *)
Class FileSystem (Path E : Type) := {
  path_of : str -> Path;                      (* Path(s) *)
  str_of : Path -> str;                       (* str(p) *)
  path_of_str_of : forall p, path_of (str_of p) = p;
  exists_ : Path -> bool;                     (* p.exists() *)
  is_dir : Path -> bool;                      (* p.is_dir() *)
  is_file : Path -> bool;                     (* p.is_file() *)
  name : Path -> str;                         (* p.name *)
  suffix : Path -> str;                       (* p.suffix *)
  absolute : Path -> Path;                    (* p.absolute() *)
  st_size : Path -> result E Z;               (* p.stat().st_size *)
  rglob_all : Path -> result E (list Path);   (* p.rglob("*"), as yielded *)
  read_utf8 : Path -> result E str;           (* open(p, "r", encoding="utf-8").read() *)
  pdf_page_texts : Path -> result E (list str);
    (* page.extract_text() of each page of PdfReader(str(p)), the import
       of pypdf included; a [None] is the empty string *)
  lower : str -> str                          (* s.lower() *)
}.

Section Loader.
Context {Path E : Type} `{FS : FileSystem Path E}.

Definition SUPPORTED_EXTENSIONS : gset str :=
  {[ lit ".pdf"; lit ".txt"; lit ".md"; lit ".markdown" ]}.

(** [_load_pdf]: the texts of the pages that have one, joined by a blank
    line. *)
Definition _load_pdf (path : Path) : result E str :=
  match pdf_page_texts path with
  | Raise e => Raise e
  | Ok pages => Ok (join [LF; LF] (filter (fun text => truthy text = true) pages))
  end.

Definition _load_text (path : Path) : result E str := read_utf8 path.

Definition load_file (file_path : str) : result E Document :=
  let path := path_of file_path in
  if negb (exists_ path)
  then Raise (FileNotFoundError (lit "File not found: " ++ file_path))
  else
    let extension := lower (suffix path) in
    let loaded :=
      if bool_decide (extension = lit ".pdf") then _load_pdf path
      else if bool_decide
                (extension ∈ ({[ lit ".txt"; lit ".md"; lit ".markdown" ]}
                              : gset str))
      then _load_text path
      else Raise (ValueError (lit "Unsupported file type: " ++ extension)) in
    match loaded with
    | Raise e => Raise e
    | Ok text =>
        match st_size path with
        | Raise e => Raise e
        | Ok size =>
            Ok (mkDocument text (name path)
                  (<["file_path" := VStr (str_of (absolute path))]>
                     (<["file_type" := VStr extension]>
                        (<["file_size" := VInt size]> ∅))))
        end
    end.

(** The test of the loop of [load_directory]. *)
Definition wanted (file_path : Path) : bool :=
  is_file file_path
  && bool_decide (lower (suffix file_path) ∈ SUPPORTED_EXTENSIONS).

(** One iteration of the loop of [load_directory]: a file that cannot be
    loaded is reported and skipped. *)
Definition load_step (documents : list Document) (file_path : Path)
    : list Document :=
  if wanted file_path
  then match load_file (str_of file_path) with
       | Ok doc => documents ++ [doc]
       | Raise _ => documents
       end
  else documents.

Definition load_directory (directory_path : str) : result E (list Document) :=
  let path := path_of directory_path in
  if negb (exists_ path)
  then Raise (FileNotFoundError
                (lit "Directory not found: " ++ directory_path))
  else if negb (is_dir path)
  then Raise (ValueError (lit "Not a directory: " ++ directory_path))
  else
    match rglob_all path with
    | Raise e => Raise e
    | Ok entries => Ok (foldl load_step [] entries)
    end.

End Loader.
End LoaderModel.

(** ** ingestion/chunker.py *)

Module Chunker.
Import Py Loader.

(** The dataclass [Chunk].  [metadata] is a [Dict[str, Any]] whose two
    entries hold integers. *)
Record Chunk := mkChunk {
  content : str;
  chunk_id : Z;
  source : str;
  start_char : Z;
  end_char : Z;
  metadata : gmap string Z
}.

Record TextChunker := mkTextChunker {
  chunk_size : Z;
  chunk_overlap : Z
}.

(** [TextChunker.__init__]: raises [ValueError] ([None]) when
    [chunk_overlap >= chunk_size]. *)
Definition init (size overlap : Z) : option TextChunker :=
  if overlap >=? size then None
  else Some (mkTextChunker size overlap).

(** The configurations the design document calls valid. *)
Definition valid (self : TextChunker) : Prop :=
  0 < chunk_size self /\ 0 <= chunk_overlap self < chunk_size self.

Definition break_chars : list str :=
  [ [LF; LF]; [LF]; lit ". "; lit "! "; lit "? "; lit ", " ].

(** The [for break_char in [...]] loop with its [break]; [best_break]
    starts out as [end]. *)
Fixpoint find_break (self : TextChunker) (text : str) (start end_ : Z)
    (bcs : list str) : Z :=
  match bcs with
  | [] => end_
  | break_char :: rest =>
      let last_break := rfind text break_char start end_ in
      if last_break >? start + chunk_size self / 2
      then last_break + len break_char
      else find_break self text start end_ rest
  end.

(** State of the [while] loop. *)
Record loop_state := mkLoop {
  st_start : Z;
  st_chunk_id : Z;
  st_chunks : list Chunk
}.

Inductive outcome :=
  | Continue (st : loop_state)
  | Break (st : loop_state).

(** [end] as computed by lines 57-68. *)
Definition chunk_end (self : TextChunker) (text : str) (start : Z) : Z :=
  let end_ := Z.min (start + chunk_size self) (len text) in
  if end_ <? len text
  then find_break self text start end_ break_chars
  else end_.

(** One execution of the loop body (lines 56-90). *)
Definition loop_body (self : TextChunker) (text source_ : str)
    (st : loop_state) : outcome :=
  let start := st_start st in
  let end_ := chunk_end self text start in
  let chunk_content := strip (slice text start end_) in
  let st1 :=
    if truthy chunk_content then
      mkLoop start (st_chunk_id st + 1)
        (st_chunks st ++
           [mkChunk chunk_content (st_chunk_id st) source_ start end_
              {[ "chunk_size"%string := len chunk_content;
                 "total_chunks"%string := -1 ]}])
    else st in
  let start' := end_ - chunk_overlap self in
  let st2 := mkLoop start' (st_chunk_id st1) (st_chunks st1) in
  if (start' >=? len text)
     || ((start' =? end_ - chunk_overlap self) && (end_ =? len text))
  then Break st2
  else Continue st2.

(** The [while start < len(text)] loop; [None] when [fuel] iterations
    did not reach the loop's exit. *)
Fixpoint chunk_loop (fuel : nat) (self : TextChunker) (text source_ : str)
    (st : loop_state) : option (list Chunk) :=
  match fuel with
  | O => None
  | S fuel' =>
      if st_start st <? len text then
        match loop_body self text source_ st with
        | Break st' => Some (st_chunks st')
        | Continue st' => chunk_loop fuel' self text source_ st'
        end
      else Some (st_chunks st)
  end.

(** [chunk.metadata["total_chunks"] = n] *)
Definition set_total (n : Z) (c : Chunk) : Chunk :=
  mkChunk (content c) (chunk_id c) (source c) (start_char c) (end_char c)
    (<[ "total_chunks"%string := n ]> (metadata c)).

(** [TextChunker.chunk_text] *)
Definition chunk_text (fuel : nat) (self : TextChunker) (text source_ : str)
    : option (list Chunk) :=
  if negb (truthy text) || negb (truthy (strip text)) then Some []
  else
    let text := strip text in
    match chunk_loop fuel self text source_ (mkLoop 0 0 []) with
    | None => None
    | Some chunks => Some (map (set_total (len chunks)) chunks)
    end.

(** [TextChunker.chunk_documents] *)
Fixpoint chunk_documents (fuel : nat) (self : TextChunker)
    (documents : list Document) : option (list Chunk) :=
  match documents with
  | [] => Some []
  | doc :: rest =>
      match chunk_text fuel self (doc_content doc) (doc_source doc) with
      | None => None
      | Some chunks =>
          match chunk_documents fuel self rest with
          | None => None
          | Some all_chunks => Some (chunks ++ all_chunks)
          end
      end
  end.

End Chunker.

Module ChunkerExamples.
Import Py Chunker.

Definition t1 : str := lit "aaa" ++ [LF] ++ lit "aaaaaa".
Definition t2 : str := lit "aaaaaaaaaa" ++ [LF] ++ lit ". ! aaaaaaa".
Definition t3 : str := lit "Sentence one. Sentence two. Sentence three.".

End ChunkerExamples.
(** ** Exceptions and stateful computations

    A Python call either returns a value or raises; what it did to the
    state before raising stays done. *)

Module Exn.
Import Py.

Inductive kind :=
  | ValueError | IndexError | AttributeError | ExternalError.

Record exn := mkExn { exn_kind : kind; exn_msg : str }.

Inductive result (A : Type) :=
  | Ok (a : A)
  | Raise (e : exn).
Arguments Ok {A} a.
Arguments Raise {A} e.

Definition is_ok {A} (r : result A) : bool :=
  match r with Ok _ => true | Raise _ => false end.

(** A method acting on state [S]. *)
Definition Action (S A : Type) : Type := S -> result A * S.

Definition ret {S A} (a : A) : Action S A := fun s => (Ok a, s).

Definition raise {S A} (e : exn) : Action S A := fun s => (Raise e, s).

Definition bind {S A B} (m : Action S A) (k : A -> Action S B) : Action S B :=
  fun s =>
    match m s with
    | (Ok a, s') => k a s'
    | (Raise e, s') => (Raise e, s')
    end.

(** [try: m  except Exception as e: handler(e)] *)
Definition try_except {S A} (m : Action S A) (handler : exn -> Action S A)
    : Action S A :=
  fun s =>
    match m s with
    | (Ok a, s') => (Ok a, s')
    | (Raise e, s') => handler e s'
    end.

Definition lift {S A} (r : result A) : Action S A := fun s => (r, s).

Definition gets {S A} (f : S -> A) : Action S A := fun s => (Ok (f s), s).

Definition modify {S} (f : S -> S) : Action S unit := fun s => (Ok tt, f s).

End Exn.

Declare Scope action_scope.
Delimit Scope action_scope with action.
Notation "'let*' x ':=' m 'in' k" :=
  (Exn.bind m (fun x => k))
  (at level 10, x name, m at level 100, k at level 200) : action_scope.
Notation "m ';;' k" :=
  (Exn.bind m (fun _ => k))
  (at level 100, k at level 200, right associativity) : action_scope.

(** ** embeddings/embedder.py *)

Module Embedder.
Import Py Exn.

Section WithModel.
Context {F : Type}.

(** [self.model.encode(text, convert_to_numpy=True).tolist()] on one text
    and [self.model.encode(valid_texts, ...)] on a batch, whose result is
    indexed by row. *)
Variable model_encode : str -> result (list F).
Variable model_encode_batch : list str -> result (list (list F)).

(** [text and text.strip()] as a condition. *)
Definition has_text (text : str) : bool := truthy text && truthy (strip text).

Definition embed_text (text : str) : result (list F) :=
  if negb (has_text text)
  then Raise (mkExn ValueError (lit "Cannot embed empty text"))
  else model_encode text.

(** The loop of lines 62-65 from position [i] on: the texts kept and
    their positions. *)
Fixpoint collect_valid (i : nat) (texts : list str) : list str * list nat :=
  match texts with
  | [] => ([], [])
  | text :: rest =>
      let '(valid_texts, valid_indices) := collect_valid (S i) rest in
      if has_text text
      then (text :: valid_texts, i :: valid_indices)
      else (valid_texts, valid_indices)
  end.

(** [for i, idx in enumerate(valid_indices): result[idx] = embeddings[i].tolist()]
    from position [i] on.  Both subscripts raise [IndexError] out of range. *)
Fixpoint scatter (i : nat) (valid_indices : list nat)
    (embeddings : list (list F)) (res : list (list F))
    : result (list (list F)) :=
  match valid_indices with
  | [] => Ok res
  | idx :: rest =>
      match embeddings !! i with
      | None => Raise (mkExn IndexError (lit "index out of bounds"))
      | Some row =>
          if decide (idx < length res)%nat
          then scatter (S i) rest embeddings (<[idx := row]> res)
          else Raise (mkExn IndexError (lit "list assignment index out of range"))
      end
  end.

Definition embed_batch (texts : list str) : result (list (list F)) :=
  if negb (truthy texts) then Ok []
  else
    let '(valid_texts, valid_indices) := collect_valid 0 texts in
    if negb (truthy valid_texts) then Ok (replicate (length texts) [])
    else
      match model_encode_batch valid_texts with
      | Raise e => Raise e
      | Ok embeddings =>
          scatter 0 valid_indices embeddings (replicate (length texts) [])
      end.

End WithModel.
End Embedder.

(** ** vectorstore/endee_store.py *)

Module Store.
Import Py Exn Chunker.
Local Open Scope action_scope.

Section Endee.
(** [W]: the state of the external services; [Handle]: what
    [client.get_index] returns; [F]: Python floats, which are only
    passed around. *)
Context {W Handle F : Type}.

Inductive Precision := INT8D.

(** ["meta"] of an upserted record. *)
Record RecordMeta := mkRecordMeta {
  meta_source : str;
  meta_chunk_id : Z;
  meta_content : str;
  meta_content_preview : str;
  meta_start_char : Z;
  meta_end_char : Z
}.

(** One element of [vectors]: [{"id", "vector", "meta", "filter"}];
    ["filter"] is [{"source": chunk.source}]. *)
Record VectorRecord := mkVectorRecord {
  rec_id : str;
  rec_vector : list F;
  rec_meta : RecordMeta;
  rec_filter_source : str
}.

(** An element of what [client.list_indexes()] returns: a name or a
    dict, of which only [.get("name")] is used. *)
Inductive IndexEntry :=
  | EntryName (name : str)
  | EntryDict (name : option str).

(** Keyword arguments of [index.query]. *)
Record QueryParams := mkQueryParams {
  qp_vector : list F;
  qp_top_k : Z;
  qp_ef : Z;
  qp_filter : option str
}.

(** ["meta"] of a query hit; [None] is an absent key. *)
Record ItemMeta := mkItemMeta {
  im_content : option str;
  im_source : option str;
  im_rest : gmap string str
}.

(** A hit returned by [index.query]; [None] is an absent key. *)
Record Item := mkItem {
  item_id : option str;
  item_similarity : option F;
  item_meta : option ItemMeta
}.

(** The dataclass [SearchResult]. *)
Record SearchResult := mkSearchResult {
  sr_id : str;
  sr_similarity : F;
  sr_content : str;
  sr_source : str;
  sr_metadata : ItemMeta
}.

(** Calls made to the external services, and whether each returned. *)
Inductive Call :=
  | CallListIndexes
  | CallDeleteIndex (name : str)
  | CallCreateIndex (name : str) (dimension : Z) (space_type : str)
      (precision : Precision)
  | CallGetIndex (name : str)
  | CallUpsert (index : Handle) (batch : list VectorRecord)
  | CallQuery (index : Handle) (params : QueryParams)
  | CallGenerate (prompt : str).

Record Event := mkEvent { ev_call : Call; ev_ok : bool }.

(** The Endee client and index objects as the store uses them. *)
Class EndeeClient := {
  client_list_indexes : W -> result (list IndexEntry) * W;
  client_delete_index : str -> W -> result unit * W;
  client_create_index : str -> Z -> str -> Precision -> W -> result unit * W;
  client_get_index : str -> W -> result Handle * W;
  index_upsert : Handle -> list VectorRecord -> W -> result unit * W;
  index_query : Handle -> QueryParams -> W -> result (list Item) * W
}.

(** The fields of [EndeeVectorStore] that its methods read or write. *)
Record EndeeVectorStore := mkStore {
  index_name : str;
  dimension : Z;
  _index : option Handle
}.

Record Env := mkEnv {
  env_store : EndeeVectorStore;
  env_world : W;
  env_trace : list Event
}.

(** An external call: it acts on the world and is recorded. *)
Definition ext {A} (c : Call) (f : W -> result A * W) : Action Env A :=
  fun env =>
    let '(r, w) := f (env_world env) in
    (r, mkEnv (env_store env) w (env_trace env ++ [mkEvent c (is_ok r)])).

Definition set_index (h : option Handle) : Action Env unit :=
  modify (fun env =>
    mkEnv (mkStore (index_name (env_store env)) (dimension (env_store env)) h)
      (env_world env) (env_trace env)).

Context `{EndeeClient}.

(** [index_names] of lines 78-84; a [str] has no [.get]. *)
Fixpoint dict_names (entries : list IndexEntry) : result (list (option str)) :=
  match entries with
  | [] => Ok []
  | EntryDict name :: rest =>
      match dict_names rest with
      | Ok names => Ok (name :: names)
      | Raise e => Raise e
      end
  | EntryName _ :: _ =>
      Raise (mkExn AttributeError (lit "'str' object has no attribute 'get'"))
  end.

Definition entry_is (name : str) (e : IndexEntry) : bool :=
  match e with
  | EntryName n => bool_decide (n = name)
  | EntryDict _ => false
  end.

(** [self.index_name in index_names] *)
Definition index_listed (name : str) (entries : list IndexEntry) : result bool :=
  match entries with
  | [] => Ok false
  | EntryDict _ :: _ =>
      match dict_names entries with
      | Ok names => Ok (existsb (fun n => bool_decide (n = Some name)) names)
      | Raise e => Raise e
      end
  | EntryName _ :: _ => Ok (existsb (entry_is name) entries)
  end.

Definition create_index (recreate : bool) : Action Env unit :=
  let* name := gets (fun env => index_name (env_store env)) in
  let* dim := gets (fun env => dimension (env_store env)) in
  let* index_exists :=
    try_except
      (let* existing_indexes := ext CallListIndexes client_list_indexes in
       lift (index_listed name existing_indexes))
      (fun _ => ret false) in
  let create :=
    ext (CallCreateIndex name dim (lit "cosine") INT8D)
      (client_create_index name dim (lit "cosine") INT8D) ;;
    let* h := ext (CallGetIndex name) (client_get_index name) in
    set_index (Some h) in
  if index_exists : bool then
    if recreate then
      ext (CallDeleteIndex name) (client_delete_index name) ;;
      create
    else
      let* h := ext (CallGetIndex name) (client_get_index name) in
      set_index (Some h)
  else create.

Definition _get_index : Action Env Handle :=
  let* cached := gets (fun env => _index (env_store env)) in
  match cached with
  | Some h => ret h
  | None =>
      let* name := gets (fun env => index_name (env_store env)) in
      let* h := ext (CallGetIndex name) (client_get_index name) in
      set_index (Some h) ;;
      ret h
  end.

(** [f"{chunk.source}_chunk_{chunk.chunk_id}"] *)
Definition vector_id (chunk : Chunk) : str :=
  source chunk ++ lit "_chunk_" ++ str_of_int (chunk_id chunk).

(** [chunk.content[:200] + "..." if len(chunk.content) > 200 else chunk.content] *)
Definition content_preview (chunk : Chunk) : str :=
  if len (content chunk) >? 200
  then slice (content chunk) 0 200 ++ lit "..."
  else content chunk.

Definition make_record (chunk : Chunk) (embedding : list F) : VectorRecord :=
  mkVectorRecord (vector_id chunk) embedding
    (mkRecordMeta (source chunk) (chunk_id chunk) (content chunk)
       (content_preview chunk) (start_char chunk) (end_char chunk))
    (source chunk).

(** [range(start, stop, step)] for [step > 0]. *)
Definition range (start stop step : Z) : list Z :=
  map (fun k : nat => start + step * Z.of_nat k)
    (seq 0 (Z.to_nat ((stop - start + step - 1) / step))).

Definition batch_size : Z := 100.

(** The batch loop of lines 169-173 over the remaining values of [i]. *)
Fixpoint upsert_batches (index : Handle) (vectors : list VectorRecord)
    (starts : list Z) (total_upserted : Z) : Action Env Z :=
  match starts with
  | [] => ret total_upserted
  | i :: rest =>
      let batch := slice vectors i (i + batch_size) in
      ext (CallUpsert index batch) (index_upsert index batch) ;;
      upsert_batches index vectors rest (total_upserted + len batch)
  end.

Definition upsert_chunks (chunks : list Chunk) (embeddings : list (list F))
    : Action Env Z :=
  if negb (len chunks =? len embeddings) then
    raise (mkExn ValueError (lit "Number of chunks and embeddings must match"))
  else if negb (truthy chunks) then ret 0
  else
    let* index := _get_index in
    let vectors := zip_with make_record chunks embeddings in
    upsert_batches index vectors (range 0 (len vectors) batch_size) 0.

Context (float_zero : F).

Definition to_search_result (item : Item) : SearchResult :=
  let meta := default (mkItemMeta None None ∅) (item_meta item) in
  mkSearchResult
    (default [] (item_id item))
    (default float_zero (item_similarity item))
    (default [] (im_content meta))
    (default [] (im_source meta))
    meta.

Definition search (query_vector : list F) (top_k : Z)
    (source_filter : option str) : Action Env (list SearchResult) :=
  let* index := _get_index in
  let query_params :=
    mkQueryParams query_vector top_k 128
      (match source_filter with
       | Some s => if truthy s then Some s else None
       | None => None
       end) in
  let* results := ext (CallQuery index query_params) (index_query index query_params) in
  ret (map to_search_result results).

Definition delete_index : Action Env unit :=
  let* name := gets (fun env => index_name (env_store env)) in
  try_except
    (ext (CallDeleteIndex name) (client_delete_index name) ;;
     set_index None)
    (fun _ => ret tt).

End Endee.
End Store.

(** ** vectorstore/endee_store.py: [get_stats] *)

Module StoreStats.
Import Py Exn Store.
Local Open Scope action_scope.

Section Stats.
Context {W Handle F V : Type} `{!@EndeeClient W Handle F}.

Local Abbreviation Env := (@Store.Env W Handle F).

(** [index.describe()] returns a dict of statistics with values in [V];
    [of_str] is a Python string as such a value. *)
Variable index_describe : Handle -> W -> result (gmap string V) * W.
Variable of_str : str -> V.

(** The call [index.describe()]: it acts on the external state. *)
Definition describe (index : Handle) : Action Env (gmap string V) :=
  fun env =>
    let '(r, w) := index_describe index (env_world env) in
    (r, mkEnv (env_store env) w (env_trace env)).

Definition get_stats : Action Env (gmap string V) :=
  try_except
    (let* index := _get_index in
     describe index)
    (fun e => ret {[ "error"%string := of_str (exn_msg e) ]}).

End Stats.
End StoreStats.

(** ** rag/pipeline.py *)

Module Pipeline.
Import Py Exn Loader Chunker Store.
Local Open Scope action_scope.

Section RAG.
Context {W Handle F : Type}.
Context `{!@EndeeClient W Handle F}.

Local Abbreviation Env := (@Store.Env W Handle F).
Local Abbreviation SearchResult := (@Store.SearchResult F).

(** The values [self._llm_type] takes besides [None]. *)
Inductive LlmType := Ollama | Gemini.

(** What the pipeline calls besides the vector store: the document
    loader, the embedding model, the two generation back ends, and the
    rendering of a float by [{:.3f}]. *)
Class Services := {
  load_directory : str -> result (list Document);
  model_encode : str -> result (list F);
  model_encode_batch : list str -> result (list (list F));
  ollama_generate : str -> str -> W -> result (option str) * W;
  gemini_generate : str -> W -> result str * W;
  format_3f : F -> str;
  float_zero : F
}.
Context `{!Services}.

Record RAGPipeline := mkPipeline {
  llm_model : str;
  top_k : Z;
  chunker : TextChunker;
  _llm_type : option LlmType
}.

(** An element of [sources]. *)
Record SourceInfo := mkSourceInfo {
  si_source : str;
  si_similarity : F;
  si_preview : str
}.

(** The dataclass [RAGResponse]. *)
Record RAGResponse := mkResponse {
  answer : str;
  sources : list SourceInfo;
  query_text : str;
  retrieved_chunks : Z
}.

Definition DQUOTE : char := 34%N.

(** [SYSTEM_PROMPT.format(context=context)] *)
Definition system_prompt (context : str) : str :=
  join [LF]
    [ lit "You are a Computer Science interview preparation assistant. Your role is to help candidates understand CS concepts for technical interviews.";
      [];
      lit "CRITICAL RULES:";
      lit "1. Answer ONLY using the provided context below";
      lit "2. If the context doesn't contain relevant information, say: "
        ++ [DQUOTE]
        ++ lit "I don't have information about this topic in my current knowledge base. Please add relevant study materials."
        ++ [DQUOTE];
      lit "3. Never make up information or use knowledge outside the provided context";
      lit "4. Cite the source document when providing information";
      lit "5. Keep answers concise but comprehensive enough for interview preparation";
      [];
      lit "Context from study materials:";
      context;
      [];
      lit "---";
      lit "Answer the following question based ONLY on the context above." ].

Definition ingest_documents (fuel : nat) (self : RAGPipeline)
    (directory : str) (recreate_index : bool)
    : Env -> option (result Z * Env) :=
  fun env =>
    match load_directory directory with
    | Raise e => Some (Raise e, env)
    | Ok documents =>
        if negb (truthy documents) then Some (Ok 0, env)
        else
          match chunk_documents fuel (chunker self) documents with
          | None => None
          | Some chunks =>
              let texts := map content chunks in
              Some ((let* embeddings :=
                       lift (Embedder.embed_batch model_encode_batch texts) in
                     create_index recreate_index ;;
                     upsert_chunks chunks embeddings) env)
          end
    end.

(** One entry of [context_parts]. *)
Definition context_part (i : Z) (r : SearchResult) : str :=
  lit "[" ++ str_of_int i ++ lit "] From '" ++ sr_source r
  ++ lit "' (similarity: " ++ format_3f (sr_similarity r) ++ lit "):"
  ++ [LF] ++ sr_content r.

Definition source_info (r : SearchResult) : SourceInfo :=
  mkSourceInfo (sr_source r) (sr_similarity r)
    (if len (sr_content r) >? 150
     then slice (sr_content r) 0 150 ++ lit "..."
     else sr_content r).

(** [for i, result in enumerate(search_results, 1)] from [i] on. *)
Fixpoint context_parts (i : Z) (search_results : list SearchResult) : list str :=
  match search_results with
  | [] => []
  | r :: rest => context_part i r :: context_parts (i + 1) rest
  end.

Definition build_context (search_results : list SearchResult) : str :=
  join ([LF; LF] ++ lit "---" ++ [LF; LF]) (context_parts 1 search_results).

Definition no_results_answer : str :=
  lit "I couldn't find any relevant information in my knowledge base. Please make sure documents have been ingested.".

Definition full_prompt (context question : str) : str :=
  system_prompt context ++ [LF; LF] ++ lit "Question: " ++ question
  ++ [LF; LF] ++ lit "Answer:".

(** The body of the [try] of lines 215-236. *)
Definition generate (self : RAGPipeline) (ty : LlmType)
    (context question : str) : Action Env str :=
  let prompt := full_prompt context question in
  match ty with
  | Ollama =>
      let* response :=
        ext (CallGenerate prompt) (ollama_generate (llm_model self) prompt) in
      ret (default (lit "No response from Ollama") response)
  | Gemini =>
      ext (CallGenerate prompt) (gemini_generate prompt)
  end.

Definition fallback_answer (context : str) : str :=
  lit "Retrieved context (LLM not configured):" ++ [LF; LF] ++ context.

Definition error_answer (e : exn) (context : str) : str :=
  lit "Error generating answer: " ++ exn_msg e ++ [LF; LF]
  ++ lit "Retrieved context:" ++ [LF] ++ context.

Definition query (self : RAGPipeline) (question : str) (top_k_arg : option Z)
    : Action Env RAGResponse :=
  let k :=
    match top_k_arg with
    | Some k => if k =? 0 then top_k self else k
    | None => top_k self
    end in
  let* query_embedding := lift (Embedder.embed_text model_encode question) in
  let* search_results := search float_zero query_embedding k None in
  if negb (truthy search_results) then
    ret (mkResponse no_results_answer [] question 0)
  else
    let context := build_context search_results in
    let* answer :=
      match _llm_type self with
      | None => ret (fallback_answer context)
      | Some ty =>
          try_except (generate self ty context question)
            (fun e => ret (error_answer e context))
      end in
    ret (mkResponse answer (map source_info search_results) question
           (len search_results)).

Definition clear_index : Action Env unit := delete_index.

End RAG.
End Pipeline.

(** ** rag/pipeline.py: [RAGPipeline.__init__] and [_init_llm] *)

Module PipelineInit.
Import Py Exn Chunker Pipeline.

Section Init.
(** [W]: the state of the external services; [Client]: the Gemini
    model object. *)
Context {W Client : Type}.

(** [requests.get("http://localhost:11434/api/tags", timeout=2)]: the
    status code of the reply, or an exception. *)
Variable ollama_probe : W -> result Z * W.

(** [genai.configure(api_key=...)] followed by
    [genai.GenerativeModel(llm_model)], import included. *)
Variable gemini_setup : str -> str -> W -> result Client * W.

(** [_init_llm]: what it leaves in [_llm_type] and [_llm_client]. *)
Definition _init_llm (llm_api_key : option str) (llm_model : str)
    : W -> (option LlmType * option Client) * W :=
  fun w =>
    let '(probe, w1) := ollama_probe w in
    let reachable :=
      match probe with
      | Ok status_code => status_code =? 200
      | Raise _ => false
      end in
    if reachable then ((Some Ollama, None), w1)
    else
      match llm_api_key with
      | Some key =>
          if truthy key then
            match gemini_setup key llm_model w1 with
            | (Ok client, w2) => ((Some Gemini, Some client), w2)
            | (Raise _, w2) => ((None, None), w2)
            end
          else ((None, None), w1)
      | None => ((None, None), w1)
      end.

(** [RAGPipeline.__init__]: the chunker is built first, then the back
    end is selected. *)
Definition new_pipeline (llm_api_key : option str) (llm_model : str)
    (chunk_size chunk_overlap top_k : Z)
    : W -> result (RAGPipeline * option Client) * W :=
  fun w =>
    match Chunker.init chunk_size chunk_overlap with
    | None =>
        (Raise (mkExn ValueError
                  (lit "chunk_overlap must be less than chunk_size")), w)
    | Some chunker =>
        let '((ty, client), w') := _init_llm llm_api_key llm_model w in
        (Ok (mkPipeline llm_model top_k chunker ty, client), w')
    end.

End Init.
End PipelineInit.

(** * Properties

    From here on: facts about the primitives, the loop invariants, and
    the properties of each component. *)

(** ** Facts about the Python string primitives *)

Module PyFacts.
Import Py.

Lemma len_nonneg {A} (s : list A) : 0 <= len s.
Proof. unfold len. lia. Qed.

Lemma len_app {A} (s t : list A) : len (s ++ t) = len s + len t.
Proof. unfold len. rewrite length_app. lia. Qed.

Lemma truthy_true {A} (s : list A) : truthy s = true <-> s <> [].
Proof. destruct s; simpl; split; congruence. Qed.

Lemma norm_index_range n i : 0 <= n -> 0 <= norm_index n i <= n.
Proof. intros Hn. unfold norm_index. destruct (Z.ltb_spec i 0); lia. Qed.

Lemma norm_index_id n i : 0 <= i <= n -> norm_index n i = i.
Proof. intros Hi. unfold norm_index. destruct (Z.ltb_spec i 0); lia. Qed.

Lemma norm_index_neg n i : i < 0 -> 0 <= i + n -> norm_index n i = i + n.
Proof. intros Hi Hn. unfold norm_index. destruct (Z.ltb_spec i 0); lia. Qed.

Lemma lstrip_length s : (length (lstrip s) <= length s)%nat.
Proof.
  induction s as [|c s IH]; simpl; [lia|].
  destruct (isspace c); simpl; lia.
Qed.

Lemma rstrip_length s : (length (rstrip s) <= length s)%nat.
Proof.
  unfold rstrip. rewrite length_rev.
  etransitivity; [apply lstrip_length|]. by rewrite length_rev.
Qed.

Lemma strip_length s : (length (strip s) <= length s)%nat.
Proof.
  unfold strip. etransitivity; [apply rstrip_length|]. apply lstrip_length.
Qed.

Lemma strip_len s : len (strip s) <= len s.
Proof. unfold len. pose proof (strip_length s). lia. Qed.

(** The head of a left-stripped string is not whitespace. *)
Lemma lstrip_head s : lstrip s = [] \/ exists c t, lstrip s = c :: t /\ isspace c = false.
Proof.
  induction s as [|c s IH]; simpl; [by left|].
  destruct (isspace c) eqn:E; [done|]. right. by exists c, s.
Qed.

Lemma lstrip_nonspace_head c t : isspace c = false -> lstrip (c :: t) = c :: t.
Proof. intros E. simpl. by rewrite E. Qed.

Lemma lstrip_snoc s c : isspace c = false -> lstrip (s ++ [c]) = lstrip s ++ [c].
Proof.
  intros E. induction s as [|d s IH]; simpl.
  - by rewrite E.
  - destruct (isspace d); [done|]. reflexivity.
Qed.

Lemma lstrip_idemp s : lstrip (lstrip s) = lstrip s.
Proof.
  destruct (lstrip_head s) as [->|(c & t & -> & E)]; [done|].
  by apply lstrip_nonspace_head.
Qed.

Lemma rstrip_idemp s : rstrip (rstrip s) = rstrip s.
Proof. unfold rstrip. by rewrite rev_involutive, lstrip_idemp. Qed.

Lemma rstrip_keeps_head c t :
  isspace c = false -> exists u, rstrip (c :: t) = c :: u.
Proof.
  intros E. unfold rstrip. simpl. rewrite lstrip_snoc by done.
  rewrite rev_app_distr. simpl. eauto.
Qed.

Lemma strip_idemp s : strip (strip s) = strip s.
Proof.
  unfold strip.
  destruct (lstrip_head s) as [->|(c & t & -> & E)]; [done|].
  destruct (rstrip_keeps_head c t E) as [u Hu].
  rewrite Hu, (lstrip_nonspace_head c u E), <- Hu.
  apply rstrip_idemp.
Qed.

Lemma slice_length {A} (s : list A) i j :
  len (slice s i j) <= Z.max 0 (norm_index (len s) j - norm_index (len s) i).
Proof.
  unfold slice, len. rewrite length_take. lia.
Qed.

Lemma slice_empty {A} (s : list A) i j :
  norm_index (len s) j <= norm_index (len s) i -> slice s i j = [].
Proof.
  intros H. unfold slice.
  replace (Z.to_nat _) with 0%nat by lia. reflexivity.
Qed.

Lemma rfind_down_range s sub lo n :
  rfind_down s sub lo n = -1 \/
  lo <= rfind_down s sub lo n < lo + Z.of_nat n.
Proof.
  induction n as [|m IH]; simpl; [by left|].
  destruct (starts_with _ _); [right; lia|].
  destruct IH as [IH|IH]; [by left|right; lia].
Qed.

(** A match found by [rfind] lies inside the normalised window. *)
Lemma rfind_range s sub i j :
  rfind s sub i j = -1 \/
  (norm_index (len s) i <= rfind s sub i j /\
   rfind s sub i j + len sub <= norm_index (len s) j).
Proof.
  unfold rfind.
  destruct (rfind_down_range s sub (norm_index (len s) i)
              (Z.to_nat (norm_index (len s) j - len sub - norm_index (len s) i + 1)))
    as [H|H]; [by left|right]. lia.
Qed.

(** The conventions of CPython on small inputs. *)
Example strip_both_ends : strip (lit "  a b ") = lit "a b".
Proof. reflexivity. Qed.

Example slice_negative_start : slice (lit "abcdef") (-4) 3 = lit "c".
Proof. reflexivity. Qed.

Example slice_crossed : slice (lit "abcdef") (-2) 3 = [].
Proof. reflexivity. Qed.

Example rfind_rightmost : rfind (lit "a, b, c") (lit ", ") 0 7 = 4.
Proof. reflexivity. Qed.

Example rfind_window_end : rfind (lit "a, b, c") (lit ", ") 0 5 = 1.
Proof. reflexivity. Qed.

Example rfind_absent : rfind (lit "abc") (lit ", ") 0 3 = -1.
Proof. reflexivity. Qed.

Example str_of_int_negative : str_of_int (-907) = lit "-907".
Proof. reflexivity. Qed.

Example str_of_int_zero : str_of_int 0 = lit "0".
Proof. reflexivity. Qed.

Lemma rfind_ge s sub i j : -1 <= rfind s sub i j.
Proof.
  pose proof (norm_index_range (len s) i (len_nonneg s)).
  destruct (rfind_range s sub i j) as [->|[? ?]]; lia.
Qed.

End PyFacts.

(** ** Invariants of the chunking loop *)

Module ChunkerFacts.
Import Py PyFacts Chunker.

Lemma break_chars_len : Forall (fun bc : str => 1 <= len bc <= 2) break_chars.
Proof. unfold break_chars. repeat constructor; by vm_compute. Qed.

(** [find_break] keeps [end_] or snaps to just after an accepted delimiter. *)
Lemma find_break_cases self text start end_ bcs :
  find_break self text start end_ bcs = end_ \/
  exists bc, bc ∈ bcs /\
    rfind text bc start end_ > start + chunk_size self / 2 /\
    find_break self text start end_ bcs = rfind text bc start end_ + len bc.
Proof.
  induction bcs as [|bc bcs IH]; simpl; [by left|].
  destruct (Z.gtb_spec (rfind text bc start end_) (start + chunk_size self / 2)).
  - right. exists bc. split; [left|]. lia.
  - destruct IH as [IH|(bc' & Hin & Hgt & Heq)]; [by left|].
    right. exists bc'. split; [by right|done].
Qed.

(** What the loop knows about [start] at the top of an iteration. *)
Definition start_inv (self : TextChunker) (text : str) (start : Z) : Prop :=
  - chunk_size self < start /\ (start < 0 -> chunk_size self < len text).

Lemma chunk_end_spec self text start :
  valid self -> start_inv self text start -> start < len text ->
  let e := chunk_end self text start in
  0 <= e <= len text /\
  (0 <= start -> start < e <= start + chunk_size self) /\
  (start < 0 -> e <= start + len text) /\
  (e <> len text -> chunk_size self < len text).
Proof.
  intros (Hsz & Hov) (Hlo & Hneg) Hlt. unfold chunk_end.
  pose proof (len_nonneg text) as HL.
  pose proof (Z.div_pos (chunk_size self) 2 ltac:(lia) ltac:(lia)) as Hhalf.
  set (e0 := Z.min (start + chunk_size self) (len text)).
  destruct (Z.ltb_spec e0 (len text)) as [He0|He0]; [|subst e0; cbn zeta; lia].
  assert (e0 = start + chunk_size self) as He0' by (subst e0; lia).
  destruct (find_break_cases self text start e0 break_chars)
    as [->|(bc & Hin & Hgt & ->)]; [cbn zeta; lia|].
  assert (1 <= len bc <= 2) as Hbc.
  { pose proof break_chars_len as HF. rewrite Forall_forall in HF. by apply HF. }
  cbn zeta.
  destruct (rfind_range text bc start e0) as [Hnf|[Hge Hle]].
  - rewrite Hnf in *. lia.
  - rewrite (norm_index_id (len text) e0) in Hle by lia.
    pose proof (norm_index_range (len text) start HL). lia.
Qed.

(** What holds of every chunk the loop has emitted. *)
Definition chunk_ok (self : TextChunker) (text : str) (c : Chunk) : Prop :=
  content c = strip (slice text (start_char c) (end_char c)) /\
  content c <> [] /\
  0 <= start_char c < end_char c /\ end_char c <= len text /\
  len (content c) <= chunk_size self.

Definition ids_ok (chunks : list Chunk) : Prop :=
  forall (i : nat) c, chunks !! i = Some c -> chunk_id c = Z.of_nat i.

Definition chunks_inv self text (st : loop_state) : Prop :=
  Forall (chunk_ok self text) (st_chunks st) /\
  ids_ok (st_chunks st) /\
  st_chunk_id st = len (st_chunks st).

Lemma ids_ok_snoc chunks c :
  ids_ok chunks -> chunk_id c = len chunks -> ids_ok (chunks ++ [c]).
Proof.
  intros Hids Hc i c' Hi.
  destruct (decide (i < length chunks)%nat) as [Hlt|Hge].
  - rewrite lookup_app_l in Hi by done. by apply Hids.
  - rewrite lookup_app_r in Hi by lia.
    destruct (i - length chunks)%nat as [|k] eqn:E; simpl in Hi; [|done].
    injection Hi as <-. rewrite Hc. unfold len. lia.
Qed.

(** A window that starts at a negative cursor is empty. *)
Lemma negative_start_empty self text start :
  valid self -> start_inv self text start -> start < len text -> start < 0 ->
  slice text start (chunk_end self text start) = [].
Proof.
  intros Hv Hinv Hlt Hneg.
  destruct (chunk_end_spec self text start Hv Hinv Hlt) as (He & _ & Hw & _).
  destruct Hinv as (Hlo & Hbig). specialize (Hbig Hneg). specialize (Hw Hneg).
  apply slice_empty.
  rewrite (norm_index_id _ _ He), norm_index_neg by lia. lia.
Qed.

Lemma loop_body_inv self text source_ st :
  valid self ->
  start_inv self text (st_start st) -> chunks_inv self text st ->
  st_start st < len text ->
  match loop_body self text source_ st with
  | Continue st' => start_inv self text (st_start st') /\ chunks_inv self text st'
  | Break st' => chunks_inv self text st'
  end.
Proof.
  intros Hv Hst (Hall & Hids & Hid) Hlt.
  pose proof (chunk_end_spec self text _ Hv Hst Hlt) as (He & Hpos & Hneg & Hbig).
  unfold loop_body.
  set (e := chunk_end self text (st_start st)) in *.
  set (cc := strip (slice text (st_start st) e)).
  assert (chunks_inv self text
            (if truthy cc then
               mkLoop (st_start st) (st_chunk_id st + 1)
                 (st_chunks st ++
                    [mkChunk cc (st_chunk_id st) source_ (st_start st) e
                       {[ "chunk_size"%string := len cc;
                          "total_chunks"%string := -1 ]}])
             else st)) as Hinv1.
  { destruct (truthy cc) eqn:Hcc; [|done].
    apply truthy_true in Hcc.
    assert (0 <= st_start st) as H0.
    { destruct (Z.lt_ge_cases (st_start st) 0) as [Hn|]; [|done].
      exfalso. apply Hcc. subst cc e.
      by rewrite (negative_start_empty self text _ Hv Hst Hlt Hn). }
    specialize (Hpos H0).
    repeat split; simpl.
    - apply Forall_app. split; [done|]. constructor; [|constructor].
      unfold chunk_ok; simpl. repeat split; try done; try lia.
      etransitivity; [apply strip_len|].
      etransitivity; [apply slice_length|].
      rewrite (norm_index_id _ e), (norm_index_id _ (st_start st)) by lia. lia.
    - apply ids_ok_snoc; [done|]. by simpl.
    - rewrite len_app, Hid. unfold len. simpl. lia. }
  set (st1 := if truthy cc then _ else st) in *.
  destruct Hinv1 as (Hall1 & Hids1 & Hid1).
  destruct (_ || _) eqn:Hbr; simpl.
  - done.
  - split; [|done].
    apply orb_false_iff in Hbr as [_ Hbr].
    rewrite Z.eqb_refl in Hbr. simpl in Hbr. apply Z.eqb_neq in Hbr.
    destruct Hv as (Hsz & Hov). unfold start_inv. simpl. split; [lia|].
    intros _. by apply Hbig.
Qed.

Lemma chunk_loop_inv fuel self text source_ st chunks :
  valid self ->
  start_inv self text (st_start st) -> chunks_inv self text st ->
  chunk_loop fuel self text source_ st = Some chunks ->
  Forall (chunk_ok self text) chunks /\ ids_ok chunks.
Proof.
  intros Hv. revert st.
  induction fuel as [|fuel IH]; intros st Hst Hinv Hrun; simpl in Hrun; [done|].
  destruct (Z.ltb_spec (st_start st) (len text)) as [Hlt|Hge].
  - pose proof (loop_body_inv self text source_ st Hv Hst Hinv Hlt) as Hstep.
    destruct (loop_body self text source_ st) as [st'|st'].
    + destruct Hstep as [Hst' Hinv']. by apply (IH st').
    + injection Hrun as <-. destruct Hstep as (? & ? & ?). by split.
  - injection Hrun as <-. destruct Hinv as (? & ? & ?). by split.
Qed.

Lemma set_total_ok self text n c :
  chunk_ok self text c -> chunk_ok self text (set_total n c).
Proof. by unfold chunk_ok, set_total. Qed.

(** Every chunk of a completed [chunk_text] call, relative to the
    stripped text the loop works on. *)
Lemma chunk_text_inv fuel self text source_ chunks :
  valid self ->
  chunk_text fuel self text source_ = Some chunks ->
  Forall (chunk_ok self (strip text)) chunks /\ ids_ok chunks.
Proof.
  intros Hv. unfold chunk_text.
  destruct (_ || _).
  { intros [= <-]. split; [constructor|]. by intros i c. }
  destruct (chunk_loop _ _ _ _ _) as [raw|] eqn:Hrun; [|done].
  intros [= <-].
  apply chunk_loop_inv in Hrun as [Hall Hids]; try done;
    [|destruct Hv; split; simpl; lia].
  split.
  - apply Forall_fmap. eapply Forall_impl; [exact Hall|].
    intros c Hc. by apply set_total_ok.
  - intros i c Hi. rewrite list_lookup_fmap in Hi.
    destruct (raw !! i) as [c0|] eqn:E; [|done].
    injection Hi as <-. simpl. by apply Hids.
Qed.

End ChunkerFacts.

(** ** Properties of [chunk_text] *)

Module ChunkerSpec.
Import Py PyFacts Chunker ChunkerFacts ChunkerExamples.

(** More fuel never changes a result that was reached. *)
Lemma chunk_loop_fuel_mono fuel k self text source_ st chunks :
  chunk_loop fuel self text source_ st = Some chunks ->
  chunk_loop (fuel + k) self text source_ st = Some chunks.
Proof.
  revert st. induction fuel as [|fuel IH]; intros st; simpl; [done|].
  destruct (st_start st <? len text); [|done].
  destruct (loop_body self text source_ st) as [st'|st']; [apply IH|done].
Qed.

Lemma chunk_text_fuel_mono fuel k self text source_ chunks :
  chunk_text fuel self text source_ = Some chunks ->
  chunk_text (fuel + k) self text source_ = Some chunks.
Proof.
  unfold chunk_text. destruct (_ || _); [done|].
  destruct (chunk_loop fuel _ _ _ _) as [raw|] eqn:Hrun; [|done].
  by rewrite (chunk_loop_fuel_mono _ k _ _ _ _ _ Hrun).
Qed.

(** With [chunk_size = 5] and [chunk_overlap = 4] the window over
    ["aaa\naaaaaa"] snaps to the newline, [end = 4], and the cursor comes
    back to [start = 0]: the body is entered again in the same position. *)
Lemma t1_cursor_returns id chunks :
  exists c,
    loop_body (mkTextChunker 5 4) t1 (lit "s") (mkLoop 0 id chunks)
    = Continue (mkLoop 0 (id + 1) (chunks ++ [c])).
Proof. eexists. reflexivity. Qed.

Lemma t1_loop_stuck fuel : forall id chunks,
  chunk_loop fuel (mkTextChunker 5 4) t1 (lit "s") (mkLoop 0 id chunks) = None.
Proof.
  induction fuel as [|fuel IH]; intros id chunks; [done|].
  destruct (t1_cursor_returns id chunks) as [c Hc].
  change (chunk_loop (S fuel) (mkTextChunker 5 4) t1 (lit "s") (mkLoop 0 id chunks))
    with (match loop_body (mkTextChunker 5 4) t1 (lit "s") (mkLoop 0 id chunks) with
          | Break st' => Some (st_chunks st')
          | Continue st' => chunk_loop fuel (mkTextChunker 5 4) t1 (lit "s") st'
          end).
  rewrite Hc. apply IH.
Qed.

(** C1 (termination of [chunk_text] for every valid configuration): the
    code does not have the property.  [TextChunker(5, 4)] is accepted by
    the constructor and is valid, and on the text ["aaa\naaaaaa"] the
    [while] loop never reaches its exit: no number of iterations
    produces a result. *)
Theorem chunk_text_diverges :
  init 5 4 = Some (mkTextChunker 5 4) /\
  valid (mkTextChunker 5 4) /\
  forall fuel, chunk_text fuel (mkTextChunker 5 4) t1 (lit "s") = None.
Proof.
  split; [reflexivity|]. split; [unfold valid; simpl; lia|].
  intros fuel. unfold chunk_text.
  change (negb (truthy t1) || negb (truthy (strip t1))) with false.
  change (strip t1) with t1. cbv iota.
  by rewrite t1_loop_stuck.
Qed.

(** C2 (strictly increasing [start_char], [chunk_id] equal to the
    position): the code does not have the first half.  With
    [TextChunker(19, 14)] the call on ["aaaaaaaaaa\n. ! aaaaaaa"] returns
    four chunks whose [start_char] are 0, 2, 1, 4: the third chunk starts
    before the second.  The [chunk_id]s are 0, 1, 2, 3. *)
Theorem chunk_text_start_char_goes_back :
  init 19 14 = Some (mkTextChunker 19 14) /\
  valid (mkTextChunker 19 14) /\
  forall k, exists chunks,
    chunk_text (6 + k) (mkTextChunker 19 14) t2 (lit "s") = Some chunks /\
    map start_char chunks = [0; 2; 1; 4] /\
    map end_char chunks = [11; 15; 13; 22] /\
    map chunk_id chunks = [0; 1; 2; 3].
Proof.
  split; [reflexivity|]. split; [unfold valid; simpl; lia|].
  intros k. eexists. split.
  - apply (chunk_text_fuel_mono 6 k). vm_compute. reflexivity.
  - by vm_compute.
Qed.


(** The reading of C4 with offsets into the text as it was passed in. *)
Definition offsets_into_input (self : TextChunker) (text : str) : Prop :=
  forall fuel source_ chunks,
    chunk_text fuel self text source_ = Some chunks ->
    Forall (fun c =>
      content c = strip (slice text (start_char c) (end_char c))) chunks.

(** C4, counterexample: for ["  hello"] the only chunk is ["hello"] with
    offsets [0, 5), but characters 0 to 5 of the input are ["  hel"]. *)
Lemma offsets_into_input_fails :
  ~ offsets_into_input (mkTextChunker 1000 200) (lit "  hello").
Proof.
  intros H.
  specialize (H 2%nat (lit "s") _ eq_refl).
  apply Forall_inv in H. vm_compute in H. discriminate H.
Qed.

(** C4, as the code has it: [start_char] and [end_char] are 0-indexed
    offsets, [end_char] exclusive, into the input after [text.strip()];
    the content is that window, stripped. *)
Theorem chunk_text_offsets fuel self text source_ chunks :
  valid self ->
  chunk_text fuel self text source_ = Some chunks ->
  Forall (fun c =>
    0 <= start_char c < end_char c /\ end_char c <= len (strip text) /\
    content c = strip (slice (strip text) (start_char c) (end_char c)))
    chunks.
Proof.
  intros Hv Hrun. destruct (chunk_text_inv _ _ _ _ _ Hv Hrun) as [Hall _].
  eapply Forall_impl; [exact Hall|].
  intros c (Hc & _ & Hr & He & _). split; [exact Hr|]. split; [exact He|exact Hc].
Qed.

Lemma chunk_text_offsets_witness :
  valid (mkTextChunker 1000 200) /\
  Forall (fun c =>
    0 <= start_char c < end_char c /\
    end_char c <= len (strip (lit "  hello")) /\
    content c
    = strip (slice (strip (lit "  hello")) (start_char c) (end_char c)))
    [mkChunk (lit "hello") 0 (lit "s") 0 5
       {[ "chunk_size"%string := 5; "total_chunks"%string := 1 ]}].
Proof.
  assert (valid (mkTextChunker 1000 200)) as Hv by (unfold valid; simpl; lia).
  split; [exact Hv|].
  apply (chunk_text_offsets 2 (mkTextChunker 1000 200) (lit "  hello") (lit "s"));
    [exact Hv|].
  vm_compute. reflexivity.
Defined.

(** C5: in a returned sequence every chunk's [metadata["total_chunks"]]
    is the length of the sequence; none keeps the placeholder [-1]. *)
Theorem chunk_text_total_chunks fuel self text source_ chunks :
  chunk_text fuel self text source_ = Some chunks ->
  Forall (fun c => metadata c !! "total_chunks"%string = Some (len chunks))
    chunks.
Proof.
  unfold chunk_text. destruct (_ || _).
  { intros [= <-]. constructor. }
  destruct (chunk_loop _ _ _ _ _) as [raw|]; [|done].
  intros [= <-]. apply Forall_fmap, Forall_forall. intros c _. simpl.
  unfold len. rewrite length_map. apply lookup_insert_eq.
Qed.

Definition t3_chunks : list Chunk :=
  [ mkChunk (lit "Sentence one.") 0 (lit "s") 0 14
      {[ "chunk_size"%string := 13; "total_chunks"%string := 3 ]};
    mkChunk (lit "one. Sentence two.") 1 (lit "s") 9 28
      {[ "chunk_size"%string := 18; "total_chunks"%string := 3 ]};
    mkChunk (lit "two. Sentence three.") 2 (lit "s") 23 43
      {[ "chunk_size"%string := 20; "total_chunks"%string := 3 ]} ].

Lemma t3_run : chunk_text 4 (mkTextChunker 20 5) t3 (lit "s") = Some t3_chunks.
Proof. vm_compute. reflexivity. Qed.

Lemma chunk_text_total_chunks_witness :
  Forall (fun c => metadata c !! "total_chunks"%string = Some (len t3_chunks))
    t3_chunks.
Proof.
  apply (chunk_text_total_chunks 4 (mkTextChunker 20 5) t3 (lit "s")).
  vm_compute. reflexivity.
Defined.

(** C10: every returned chunk has content that is non-empty after
    whitespace stripping and at most [chunk_size] characters long. *)
Theorem chunk_text_content_bounded fuel self text source_ chunks :
  valid self ->
  chunk_text fuel self text source_ = Some chunks ->
  Forall (fun c =>
    strip (content c) <> [] /\ len (content c) <= chunk_size self) chunks.
Proof.
  intros Hv Hrun. destruct (chunk_text_inv _ _ _ _ _ Hv Hrun) as [Hall _].
  eapply Forall_impl; [exact Hall|].
  intros c (Hc & Hne & _ & _ & Hlen). split; [|done].
  rewrite Hc, strip_idemp, <- Hc. done.
Qed.

Lemma chunk_text_content_bounded_witness :
  valid (mkTextChunker 20 5) /\
  Forall (fun c =>
    strip (content c) <> [] /\ len (content c) <= chunk_size (mkTextChunker 20 5))
    t3_chunks.
Proof.
  assert (valid (mkTextChunker 20 5)) as Hv by (unfold valid; simpl; lia).
  split; [exact Hv|].
  apply (chunk_text_content_bounded 4 (mkTextChunker 20 5) t3 (lit "s"));
    [exact Hv|].
  vm_compute. reflexivity.
Defined.

End ChunkerSpec.

(** ** The chunker when the overlap is at most half a window plus one

    A snapped window ends at least [chunk_size / 2 + 2] beyond [start];
    when [chunk_overlap <= chunk_size / 2 + 1] the cursor therefore moves
    forward in every iteration, and the properties that C1 and C2 ask for
    do hold. *)

Module ChunkerAdvance.
Import Py PyFacts Chunker ChunkerFacts.










End ChunkerAdvance.

(** ** Properties of [embed_batch] *)

Module EmbedderSpec.
Import Py PyFacts Exn Embedder.

Section Batch.
Context {F : Type}.
Variable model_encode_batch : list str -> result (list (list F)).

(** The output the scatter loop is expected to build: the rows of
    [embeddings], in order, at the positions of the texts that were kept,
    and [[]] elsewhere. *)
Fixpoint placed (texts : list str) (embeddings : list (list F)) : list (list F) :=
  match texts with
  | [] => []
  | text :: rest =>
      if has_text text then
        match embeddings with
        | row :: rows => row :: placed rest rows
        | [] => [] :: placed rest []
        end
      else [] :: placed rest embeddings
  end.

(** Number of kept texts before position [i]: the row of [embeddings]
    that belongs to position [i]. *)
Definition rank (texts : list str) (i : nat) : nat :=
  length (filter (fun t => has_text t = true) (take i texts)).

Lemma collect_valid_texts i texts :
  (collect_valid i texts).1 = filter (fun t => has_text t = true) texts.
Proof.
  revert i. induction texts as [|t rest IH]; intros i; [done|].
  simpl. specialize (IH (S i)). destruct (collect_valid (S i) rest) as [vt vi].
  simpl in IH. destruct (has_text t) eqn:E.
  - rewrite filter_cons_True by done. simpl. by rewrite IH.
  - rewrite filter_cons_False by (by rewrite E). done.
Qed.

Lemma snoc_length {A} (l : list A) x : length (l ++ [x]) = S (length l).
Proof. rewrite length_app. simpl. lia. Qed.

Lemma scatter_placed texts : forall (pre done_ embeddings : list (list F)),
  length embeddings = length (filter (fun t => has_text t = true) texts) ->
  scatter (length done_) (collect_valid (length pre) texts).2
    (done_ ++ embeddings) (pre ++ replicate (length texts) [])
  = Ok (pre ++ placed texts embeddings).
Proof.
  induction texts as [|t rest IH]; intros pre done_ embeddings Hlen; [done|].
  simpl. pose proof (IH (pre ++ [[]])) as IHblank.
  destruct (collect_valid (S (length pre)) rest) as [vt vi] eqn:Hcv.
  destruct (has_text t) eqn:E; simpl.
  - rewrite filter_cons_True in Hlen by done.
    destruct embeddings as [|row rows]; [done|]. simpl in Hlen.
    rewrite lookup_app_r by lia. rewrite Nat.sub_diag. simpl.
    rewrite decide_True by (rewrite length_app; simpl; lia).
    rewrite insert_app_r_alt by lia. rewrite Nat.sub_diag. simpl.
    specialize (IH (pre ++ [row]) (done_ ++ [row]) rows).
    rewrite (snoc_length pre row), (snoc_length done_ row), Hcv in IH.
    rewrite <- !app_assoc in IH. simpl in IH. apply IH. lia.
  - rewrite filter_cons_False in Hlen by (by rewrite E).
    specialize (IHblank done_ embeddings Hlen).
    rewrite (snoc_length pre []), Hcv in IHblank.
    by rewrite <- !app_assoc in IHblank.
Qed.

Lemma placed_length texts : forall embeddings,
  length (placed texts embeddings) = length texts.
Proof.
  induction texts as [|t rest IH]; intros embeddings; [done|]. simpl.
  destruct (has_text t); [destruct embeddings|]; simpl; by rewrite IH.
Qed.

Lemma placed_blank texts : forall embeddings (i : nat) t,
  texts !! i = Some t -> has_text t = false ->
  placed texts embeddings !! i = Some [].
Proof.
  induction texts as [|t0 rest IH]; intros embeddings i t Hi Ht; [done|].
  destruct i as [|i]; simpl in *.
  - injection Hi as ->. by rewrite Ht.
  - destruct (has_text t0); [destruct embeddings|]; simpl; by eapply IH.
Qed.

Lemma placed_kept texts : forall embeddings (i : nat) t,
  length embeddings = length (filter (fun t => has_text t = true) texts) ->
  texts !! i = Some t -> has_text t = true ->
  placed texts embeddings !! i = embeddings !! rank texts i.
Proof.
  unfold rank.
  induction texts as [|t0 rest IH]; intros embeddings i t Hlen Hi Ht; [done|].
  destruct i as [|i]; simpl in *.
  - injection Hi as ->. rewrite Ht.
    rewrite filter_cons_True in Hlen by done.
    by destruct embeddings.
  - destruct (has_text t0) eqn:E.
    + rewrite !filter_cons_True in * by done.
      destruct embeddings as [|row rows]; [done|]. simpl in *.
      eapply IH; [lia|done..].
    + rewrite !filter_cons_False in * by (by rewrite E).
      simpl. by eapply IH.
Qed.

Lemma placed_filter texts : forall embeddings,
  length embeddings = length (filter (fun t => has_text t = true) texts) ->
  Forall (fun v => v <> []) embeddings ->
  filter (fun v => truthy v = true) (placed texts embeddings) = embeddings.
Proof.
  induction texts as [|t0 rest IH]; intros embeddings Hlen Hne; simpl in *.
  - by destruct embeddings.
  - destruct (has_text t0) eqn:E.
    + rewrite filter_cons_True in Hlen by done.
      destruct embeddings as [|row rows]; [done|]. simpl in Hlen.
      apply Forall_cons in Hne as [Hrow Hrows].
      rewrite filter_cons_True by (by apply truthy_true).
      rewrite IH; [done|lia|done].
    + rewrite filter_cons_False in Hlen by (by rewrite E).
      rewrite filter_cons_False by done. by apply IH.
Qed.

(** What [embed_batch] asks of the embedding model: on a non-empty
    batch it returns one non-empty vector per text. *)
Definition encodes_each : Prop :=
  forall batch, batch <> [] ->
    exists embeddings,
      model_encode_batch batch = Ok embeddings /\
      length embeddings = length batch /\
      Forall (fun v => v <> []) embeddings.

(** C3: [embed_batch(texts)] returns as many vectors as there are texts;
    a position whose text is empty or whitespace-only holds [[]]; every
    other position holds a non-empty vector; and the non-empty vectors are
    the model's embeddings of the kept texts, in input order, each at the
    position of its text. *)
Theorem embed_batch_positions (texts : list str) :
  encodes_each ->
  exists res,
    embed_batch model_encode_batch texts = Ok res /\
    length res = length texts /\
    (forall (i : nat) t, texts !! i = Some t -> has_text t = false ->
       res !! i = Some []) /\
    (forall (i : nat) t, texts !! i = Some t -> has_text t = true ->
       exists v, res !! i = Some v /\ v <> []) /\
    (forall embeddings,
       filter (fun t => has_text t = true) texts <> [] ->
       model_encode_batch (filter (fun t => has_text t = true) texts)
       = Ok embeddings ->
       filter (fun v => truthy v = true) res = embeddings /\
       forall (i : nat) t, texts !! i = Some t -> has_text t = true ->
         res !! i = embeddings !! rank texts i).
Proof.
  intros Hmodel. unfold embed_batch.
  destruct (decide (texts = [])) as [->|Hsome].
  { exists []. simpl. repeat split; done. }
  assert (truthy texts = true) as -> by (by destruct texts). cbn [negb].
  pose proof (collect_valid_texts 0 texts) as Hvt.
  pose proof (scatter_placed texts [] []) as Hsc. simpl in Hsc.
  destruct (collect_valid 0 texts) as [vt vi]. simpl in Hvt, Hsc. subst vt.
  destruct (filter (fun t => has_text t = true) texts) as [|k ks] eqn:Hkept.
  - (* nothing kept: the model is not called *)
    exists (replicate (length texts) []). simpl.
    split; [done|]. split; [by rewrite length_replicate|].
    split; [|split].
    + intros i t Hi _. apply lookup_replicate_2. by eapply lookup_lt_Some.
    + intros i t Hi Ht. exfalso.
      assert (t ∈ filter (fun t => has_text t = true) texts) as Hin.
      { apply list_elem_of_filter. split; [done|]. by eapply list_elem_of_lookup_2. }
      rewrite Hkept in Hin. by apply not_elem_of_nil in Hin.
    + done.
  - destruct (Hmodel (k :: ks) ltac:(done)) as (embeddings & Henc & Hlen & Hne).
    simpl. rewrite Henc. rewrite (Hsc embeddings Hlen).
    exists (placed texts embeddings).
    split; [done|]. split; [apply placed_length|].
    assert (forall (i : nat) t, texts !! i = Some t -> has_text t = true ->
              placed texts embeddings !! i = embeddings !! rank texts i) as Hpos.
    { intros i t Hi Ht. eapply placed_kept; [|done..]. by rewrite Hlen, Hkept. }
    split; [|split].
    + intros i t Hi Ht. by eapply placed_blank.
    + intros i t Hi Ht. rewrite (Hpos i t Hi Ht).
      assert (rank texts i < length embeddings)%nat as Hlt.
      { rewrite Hlen, <- Hkept. unfold rank.
        rewrite <- (take_drop_middle texts i t Hi) at 2.
        rewrite filter_app, filter_cons_True by done.
        rewrite length_app. simpl. lia. }
      destruct (lookup_lt_is_Some_2 embeddings _ Hlt) as [v Hv].
      exists v. split; [done|].
      rewrite Forall_forall in Hne. apply Hne. by eapply list_elem_of_lookup_2.
    + intros embeddings' _ Henc'. injection Henc' as <-.
      split; [|done]. apply placed_filter; [|done]. by rewrite Hlen, Hkept.
Qed.

End Batch.

(** A stand-in model for examples: the embedding of a text is the
    one-element vector holding its length. *)
Definition length_model (batch : list str) : result (list (list Z)) :=
  Ok (map (fun t => [len t]) batch).

Lemma length_model_encodes_each : encodes_each length_model.
Proof.
  intros batch _. exists (map (fun t => [len t]) batch).
  split; [done|]. split; [by rewrite length_map|].
  apply Forall_fmap, Forall_forall. by intros t _.
Qed.

Lemma embed_batch_positions_witness :
  exists res,
    embed_batch length_model [ []; lit "hello world" ] = Ok res /\
    length res = 2%nat /\
    res !! 0%nat = Some [] /\
    (exists v, res !! 1%nat = Some v /\ v <> []).
Proof.
  destruct (embed_batch_positions length_model [ []; lit "hello world" ]
              length_model_encodes_each)
    as (res & Hrun & Hlen & Hblank & Hkept & _).
  exists res. split; [exact Hrun|]. split; [exact Hlen|].
  split.
  - apply (Hblank 0%nat []); reflexivity.
  - apply (Hkept 1%nat (lit "hello world")); reflexivity.
Defined.

End EmbedderSpec.

(** ** Properties of the vector store *)

Module StoreFacts.
Import Py PyFacts Exn Chunker Store.

Ltac run_action :=
  unfold Exn.bind, Exn.ret, Exn.raise, Exn.gets, Exn.modify, Exn.lift,
    Exn.try_except, ext, set_index in *;
  simpl in *.

Section Batches.
Context {A : Type}.

(** A slice with natural-number bounds. *)
Lemma slice_nat (v : list A) (i n : nat) :
  slice v (Z.of_nat i) (Z.of_nat i + Z.of_nat n) = take n (drop i v).
Proof.
  unfold slice.
  pose proof (len_nonneg v) as Hlen. unfold len in *.
  destruct (decide (i <= length v)%nat) as [Hi|Hi].
  - rewrite (norm_index_id _ (Z.of_nat i)) by lia.
    replace (Z.to_nat (Z.of_nat i)) with i by lia.
    destruct (decide (i + n <= length v)%nat) as [Hn|Hn].
    + rewrite norm_index_id by lia. f_equal. lia.
    + unfold norm_index.
      destruct (Z.ltb_spec (Z.of_nat i + Z.of_nat n) 0); [lia|].
      rewrite !take_ge; [done|rewrite length_drop; lia..].
  - unfold norm_index.
    destruct (Z.ltb_spec (Z.of_nat i) 0); [lia|].
    rewrite !drop_ge by lia. by rewrite !take_nil.
Qed.

Lemma take_add (v : list A) (m n : nat) :
  take (m + n) v = take m v ++ take n (drop m v).
Proof.
  revert v. induction m as [|m IH]; intros v; simpl; [done|].
  destruct v as [|x v]; simpl; [by rewrite take_nil|].
  by rewrite IH.
Qed.

Lemma batches_from (v : list A) (b : nat) : forall (m a : nat),
  concat (map (fun k : nat => take b (drop (b * k) v)) (seq a m))
  = take (b * m) (drop (b * a) v).
Proof.
  induction m as [|m IH]; intros a; simpl.
  - by rewrite Nat.mul_0_r.
  - rewrite IH. replace (b * S m)%nat with (b + b * m)%nat by lia.
    rewrite take_add, drop_drop. do 3 f_equal. lia.
Qed.

(** The windows [vectors[i:i + 100]] for [i] in
    [range(0, len(vectors), 100)], put end to end, are [vectors]. *)
Lemma batches_cover (v : list A) :
  concat (map (fun i => slice v i (i + batch_size)) (range 0 (len v) batch_size))
  = v.
Proof.
  unfold range, batch_size. rewrite map_map.
  rewrite (map_ext _ (fun k : nat => take 100 (drop (100 * k) v))).
  - rewrite batches_from. simpl. rewrite drop_0. apply take_ge.
    unfold len.
    pose proof (Z.div_mod (Z.of_nat (length v) - 0 + 100 - 1) 100 ltac:(lia)).
    pose proof (Z.mod_pos_bound (Z.of_nat (length v) - 0 + 100 - 1) 100 ltac:(lia)).
    lia.
  - intros k.
    replace (0 + 100 * Z.of_nat k) with (Z.of_nat (100 * k)) by lia.
    apply (slice_nat v (100 * k) 100).
Qed.

End Batches.

Section Runs.
Context {W Handle F : Type} `{!@EndeeClient W Handle F}.

Local Abbreviation Env := (@Store.Env W Handle F).
Local Abbreviation Event := (@Store.Event Handle F).
Local Abbreviation VectorRecord := (@Store.VectorRecord F).

(** The records of an upsert call; nothing for other calls. *)
Definition batch_of (ev : Event) : list VectorRecord :=
  match ev_call ev with
  | CallUpsert _ batch => batch
  | _ => []
  end.

(** Every record handed to [index.upsert] during a run, in order. *)
Definition sent_records (evs : list Event) : list VectorRecord :=
  concat (map batch_of evs).

Definition all_ok (evs : list Event) : Prop :=
  Forall (fun ev => ev_ok ev = true) evs.

Lemma sent_records_app evs1 evs2 :
  sent_records (evs1 ++ evs2) = sent_records evs1 ++ sent_records evs2.
Proof. unfold sent_records. by rewrite map_app, concat_app. Qed.

(** A run of the batch loop: the calls it made extend the trace, the
    store object is untouched, and if all of them returned, every window
    was sent and counted. *)
Lemma upsert_batches_run index vectors starts : forall total (env : Env),
  exists evs,
    env_trace (upsert_batches index vectors starts total env).2
      = env_trace env ++ evs /\
    env_store (upsert_batches index vectors starts total env).2
      = env_store env /\
    (all_ok evs ->
       (upsert_batches index vectors starts total env).1
         = Ok (total
               + len (concat (map (fun i => slice vectors i (i + batch_size))
                                starts))) /\
       sent_records evs
         = concat (map (fun i => slice vectors i (i + batch_size)) starts)).
Proof.
  induction starts as [|i rest IH]; intros total env.
  - exists []. simpl. rewrite app_nil_r. repeat split; try done.
    unfold len; simpl. f_equal. lia.
  - simpl. run_action.
    destruct (index_upsert index (slice vectors i (i + batch_size)) (env_world env))
      as [[[]|e] w] eqn:Hcall; simpl.
    + destruct (IH (total + len (slice vectors i (i + batch_size)))
                  (mkEnv (env_store env) w
                     (env_trace env
                      ++ [mkEvent (CallUpsert index (slice vectors i (i + batch_size))) true])))
        as (evs & Htr & Hst & Hok).
      exists (mkEvent (CallUpsert index (slice vectors i (i + batch_size))) true :: evs).
      split; [rewrite Htr; simpl; by rewrite <- app_assoc|].
      split; [exact Hst|].
      intros Hall. apply Forall_cons in Hall as [_ Hall].
      destruct (Hok Hall) as [Hr Hsent]. split.
      * rewrite Hr. f_equal. rewrite len_app. lia.
      * unfold sent_records in *. simpl. by rewrite Hsent.
    + exists [mkEvent (CallUpsert index (slice vectors i (i + batch_size))) false].
      split; [done|]. split; [done|].
      intros Hall. apply Forall_cons in Hall as [Hbad _]. discriminate Hbad.
Qed.

(** A run of [_get_index]. *)
Lemma get_index_run (env : Env) :
  exists evs,
    env_trace (_get_index env).2 = env_trace env ++ evs /\
    sent_records evs = [] /\
    (all_ok evs -> exists h, (_get_index env).1 = Ok h).
Proof.
  unfold _get_index. run_action.
  destruct (_index (env_store env)) as [h|]; simpl.
  - exists []. rewrite app_nil_r. split; [done|]. split; [done|]. eauto.
  - destruct (client_get_index (index_name (env_store env)) (env_world env))
      as [[h|e] w]; simpl.
    + eexists [_]. split; [done|]. split; [done|]. eauto.
    + eexists [_]. split; [done|]. split; [done|].
      intros Hall. apply Forall_cons in Hall as [Hbad _]. discriminate Hbad.
Qed.

Lemma make_record_ids (chunks : list Chunk) : forall (embeddings : list (list F)),
  length chunks = length embeddings ->
  Forall2 (fun (r : VectorRecord) c => rec_id r = vector_id c)
    (zip_with make_record chunks embeddings) chunks.
Proof.
  induction chunks as [|c chunks IH]; intros [|e embeddings] Hlen;
    simpl in *; try done; try by constructor.
  constructor; [done|]. apply IH. lia.
Qed.

End Runs.
End StoreFacts.

(** A small stand-in for the external services, used in examples: the
    world is the list of records stored so far, the index handle is a
    number, and [get_ok] and [delete_ok] say whether [client.get_index]
    and [client.delete_index] return or raise. *)
Module Demo.
Import Py Exn Chunker Store.

Definition refused : exn := mkExn ExternalError (lit "request failed").

Definition hit : @Item Z :=
  mkItem (Some (lit "notes.txt_chunk_0")) (Some 1)
    (Some (mkItemMeta (Some (lit "A hash table maps keys to values."))
             (Some (lit "notes.txt")) ∅)).

#[local] Instance client (get_ok delete_ok : bool)
    : @EndeeClient (list (@VectorRecord Z)) nat Z := {|
  client_list_indexes w := (Ok [EntryName (lit "cs_interview_docs")], w);
  client_delete_index _ w :=
    if delete_ok then (Ok tt, []) else (Raise refused, w);
  client_create_index _ _ _ _ w := (Ok tt, w);
  client_get_index _ w := if get_ok then (Ok 7%nat, w) else (Raise refused, w);
  index_upsert _ batch w := (Ok tt, w ++ batch);
  index_query _ _ w := (Ok [hit], w)
|}.

Definition store (cached : option nat) : @EndeeVectorStore nat :=
  mkStore (lit "cs_interview_docs") 384 cached.

Definition env (cached : option nat) : @Env (list (@VectorRecord Z)) nat Z :=
  mkEnv (store cached) [] [].

Definition one_chunk : Chunk :=
  mkChunk (lit "hello") 0 (lit "notes.txt") 0 5
    {[ "chunk_size"%string := 5; "total_chunks"%string := 1 ]}.

End Demo.

Module StoreSpec.
Import Py PyFacts Exn Chunker Store StoreFacts.

Section Claims.
Context {W Handle F : Type} `{!@EndeeClient W Handle F}.

Local Abbreviation Env := (@Store.Env W Handle F).
Local Abbreviation Event := (@Store.Event Handle F).

(** The calls made between two states of the environment. *)
Definition events_between (env env' : Env) : list Event :=
  drop (length (env_trace env)) (env_trace env').

(** Every [index.upsert] among [evs] returned. *)
Definition sends_ok (evs : list Event) : Prop :=
  Forall (fun ev =>
    match ev_call ev with
    | CallUpsert _ _ => ev_ok ev = true
    | _ => True
    end) evs.

(** C6 as stated: equal lengths and no failed batch send are enough for
    [upsert_chunks] to return [len(chunks)]. *)
Definition returns_count_when_sends_succeed : Prop :=
  forall chunks (embeddings : list (list F)) (env : Env),
    len chunks = len embeddings ->
    sends_ok (events_between env (upsert_chunks chunks embeddings env).2) ->
    (upsert_chunks chunks embeddings env).1 = Ok (len chunks).

(** C6, as the code has it.  With different lengths [upsert_chunks]
    raises [ValueError] and does nothing else.  With equal lengths, if
    every external call of the run returned (the resolution of the index
    handle by [client.get_index], when the handle is not cached, and
    every batch send), it returns [len(chunks)], and the records sent, in
    order, are one per chunk, each with id
    ["{source}_chunk_{chunk_id}"]. *)
Theorem upsert_chunks_spec chunks (embeddings : list (list F)) (env : Env) :
  (len chunks <> len embeddings ->
     upsert_chunks chunks embeddings env
     = (Raise (mkExn ValueError
                 (lit "Number of chunks and embeddings must match")), env)) /\
  (len chunks = len embeddings ->
     exists evs,
       env_trace (upsert_chunks chunks embeddings env).2
         = env_trace env ++ evs /\
       (all_ok evs ->
          (upsert_chunks chunks embeddings env).1 = Ok (len chunks) /\
          sent_records evs = zip_with make_record chunks embeddings /\
          Forall2 (fun r c =>
            rec_id r
            = source c ++ lit "_chunk_" ++ str_of_int (chunk_id c))
            (sent_records evs) chunks)).
Proof.
  unfold upsert_chunks. split.
  - intros Hne. apply Z.eqb_neq in Hne. by rewrite Hne.
  - intros Heq. rewrite (proj2 (Z.eqb_eq _ _) Heq). cbn [negb].
    assert (length chunks = length embeddings) as Hlen by (unfold len in Heq; lia).
    destruct chunks as [|c chunks'] eqn:Hchunks.
    { exists []. simpl. rewrite app_nil_r. split; [done|]. intros _.
      split; [done|]. split; [done|]. constructor. }
    rewrite <- Hchunks in *. assert (truthy chunks = true) as -> by (by subst).
    cbn [negb]. unfold Exn.bind.
    destruct (get_index_run env) as (evs1 & Htr1 & Hsent1 & Hok1).
    destruct (_get_index env) as [[h|e] env1] eqn:Hget; simpl in *.
    + set (vectors := zip_with make_record chunks embeddings) in *.
      destruct (upsert_batches_run h vectors (range 0 (len vectors) batch_size)
                  0 env1) as (evs2 & Htr2 & _ & Hok2).
      exists (evs1 ++ evs2). split; [by rewrite Htr2, Htr1, app_assoc|].
      intros Hall. apply Forall_app in Hall as [_ Hall2].
      destruct (Hok2 Hall2) as [Hr Hsent2].
      rewrite batches_cover in Hr, Hsent2.
      assert (sent_records (evs1 ++ evs2) = vectors) as Hsent.
      { by rewrite sent_records_app, Hsent1, Hsent2. }
      split; [|split; [done|]].
      * rewrite Hr. f_equal. subst vectors. unfold len.
        rewrite length_zip_with. lia.
      * rewrite Hsent. subst vectors. by apply make_record_ids.
    + exists evs1. split; [done|]. intros Hall.
      destruct (Hok1 Hall) as [h Hh]. discriminate Hh.
Qed.

(** C7 as stated: [delete_index] never raises and always leaves the
    cached handle unset. *)
Definition always_resets_handle : Prop :=
  forall env : Env,
    (delete_index env).1 = Ok tt /\
    _index (env_store (delete_index env).2) = None.

(** C7, as the code has it: [delete_index] never raises; it makes the
    one external delete call; the cached handle is reset when that call
    returned and is left as it was when that call raised. *)
Theorem delete_index_best_effort (env : Env) :
  let name := index_name (env_store env) in
  let outcome := client_delete_index name (env_world env) in
  (delete_index env).1 = Ok tt /\
  env_world (delete_index env).2 = outcome.2 /\
  env_trace (delete_index env).2
    = env_trace env ++ [mkEvent (CallDeleteIndex name) (is_ok outcome.1)] /\
  index_name (env_store (delete_index env).2) = name /\
  _index (env_store (delete_index env).2)
    = if is_ok outcome.1 then None else _index (env_store env).
Proof.
  unfold delete_index. run_action.
  destruct (client_delete_index (index_name (env_store env)) (env_world env))
    as [[[]|e] w]; simpl; repeat split.
Qed.

End Claims.

(** C6, counterexample: the handle is not cached and [client.get_index]
    raises, so no batch is sent, none fails, and [upsert_chunks] raises
    instead of returning 1. *)
Lemma returns_count_when_sends_succeed_fails :
  ~ @returns_count_when_sends_succeed _ _ _ (Demo.client false true).
Proof.
  intros Hclaim.
  specialize (Hclaim [Demo.one_chunk] [[1]] (Demo.env None) eq_refl).
  assert (@sends_ok nat Z
            (events_between (Demo.env None)
               (@upsert_chunks _ _ _ (Demo.client false true)
                  [Demo.one_chunk] [[1]] (Demo.env None)).2)) as Hsends.
  { vm_compute. repeat constructor. }
  specialize (Hclaim Hsends). vm_compute in Hclaim. discriminate Hclaim.
Qed.

(** With a cached handle, or a [client.get_index] that returns, the
    same call stores the record and returns 1. *)
Lemma upsert_chunks_spec_witness :
  exists evs,
    env_trace (@upsert_chunks _ _ _ (Demo.client true true)
                 [Demo.one_chunk] [[1]] (Demo.env None)).2
      = env_trace (Demo.env None) ++ evs /\
    (all_ok evs ->
       (@upsert_chunks _ _ _ (Demo.client true true)
          [Demo.one_chunk] [[1]] (Demo.env None)).1
         = Ok (len [Demo.one_chunk]) /\
       sent_records evs = zip_with make_record [Demo.one_chunk] [[1]] /\
       Forall2 (fun r c =>
         rec_id r = source c ++ lit "_chunk_" ++ str_of_int (chunk_id c))
         (sent_records evs) [Demo.one_chunk]).
Proof.
  apply (proj2 (@upsert_chunks_spec _ _ _ (Demo.client true true)
                  [Demo.one_chunk] [[1]] (Demo.env None))).
  reflexivity.
Defined.

(** C7, counterexample: a handle is cached and the external delete
    raises; the handle is still cached afterwards. *)
Lemma always_resets_handle_fails :
  ~ @always_resets_handle _ _ _ (Demo.client true false).
Proof.
  intros Hclaim.
  destruct (Hclaim (Demo.env (Some 7%nat))) as [_ Hnone].
  vm_compute in Hnone. discriminate Hnone.
Qed.

End StoreSpec.

(** ** Properties of the pipeline *)

Module DemoServices.
Import Py Exn Loader Chunker Store Pipeline.

(** Stand-ins for the loader, the embedding model and the generation
    back ends: [docs] is what the directory holds, [gen_ok] says whether
    a generation call returns or raises. *)
#[local] Instance services (docs : list Document) (gen_ok : bool)
    : @Services (list (@VectorRecord Z)) Z := {|
  load_directory _ := Ok docs;
  model_encode text := Ok [len text];
  model_encode_batch batch := Ok (map (fun t => [len t]) batch);
  ollama_generate _ _ w :=
    if gen_ok then (Ok (Some (lit "generated")), w) else (Raise Demo.refused, w);
  gemini_generate _ w :=
    if gen_ok then (Ok (lit "generated"), w) else (Raise Demo.refused, w);
  format_3f z := str_of_int z ++ lit ".000";
  float_zero := 0
|}.

Definition pipeline (ty : option LlmType) : RAGPipeline :=
  mkPipeline (lit "gemini-2.0-flash") 5 (mkTextChunker 1000 200) ty.

Definition question : str := lit "What is a hash table?".

Definition hit_result : @SearchResult Z :=
  mkSearchResult (lit "notes.txt_chunk_0") 1
    (lit "A hash table maps keys to values.") (lit "notes.txt")
    (mkItemMeta (Some (lit "A hash table maps keys to values."))
       (Some (lit "notes.txt")) ∅).

End DemoServices.

Module PipelineSpec.
Import Py PyFacts Exn Loader Chunker Store StoreFacts Pipeline.

Section Claims.
Context {W Handle F : Type}.
Context `{!@EndeeClient W Handle F} `{!@Services W F}.

Local Abbreviation Env := (@Store.Env W Handle F).
Local Abbreviation SearchResult := (@Store.SearchResult F).

(** [k = top_k or self.top_k] *)
Definition effective_top_k (self : RAGPipeline) (top_k_arg : option Z) : Z :=
  match top_k_arg with
  | Some k => if k =? 0 then top_k self else k
  | None => top_k self
  end.

(** C8: once the question is embedded and the search has returned at
    least one result, [query] returns a response.  Without a generation
    back end the answer is the marker ["Retrieved context (LLM not
    configured):"], a blank line and the context block; with a back end
    whose call raises [e] it is ["Error generating answer: {e}"], a blank
    line, ["Retrieved context:"] and the context block. *)
Theorem query_returns_after_retrieval (self : RAGPipeline) question top_k_arg
    (env env1 : Env) query_embedding (results : list SearchResult) :
  Embedder.embed_text model_encode question = Ok query_embedding ->
  search float_zero query_embedding (effective_top_k self top_k_arg) None env
    = (Ok results, env1) ->
  results <> [] ->
  exists resp env',
    query self question top_k_arg env = (Ok resp, env') /\
    query_text resp = question /\
    retrieved_chunks resp = len results /\
    sources resp = map source_info results /\
    (_llm_type self = None ->
       env' = env1 /\
       starts_with (lit "Retrieved context") (answer resp) = true /\
       answer resp
       = lit "Retrieved context (LLM not configured):" ++ [LF; LF]
         ++ build_context results) /\
    (forall e w,
       (_llm_type self = Some Ollama /\
        ollama_generate (llm_model self)
          (full_prompt (build_context results) question) (env_world env1)
        = (Raise e, w)) \/
       (_llm_type self = Some Gemini /\
        gemini_generate (full_prompt (build_context results) question)
          (env_world env1)
        = (Raise e, w)) ->
       answer resp
       = lit "Error generating answer: " ++ exn_msg e ++ [LF; LF]
         ++ lit "Retrieved context:" ++ [LF] ++ build_context results).
Proof.
  intros Hembed Hsearch Hsome.
  unfold query. fold (effective_top_k self top_k_arg).
  unfold Exn.bind at 1. unfold Exn.lift. rewrite Hembed.
  unfold Exn.bind at 1. rewrite Hsearch.
  assert (truthy results = true) as -> by (by apply truthy_true).
  cbn [negb].
  destruct (_llm_type self) as [[|]|] eqn:Hty.
  - (* Ollama *)
    unfold Exn.try_except, generate, Exn.bind, ext, Exn.ret.
    destruct (ollama_generate (llm_model self)
                (full_prompt (build_context results) question) (env_world env1))
      as [[response|e0] w0] eqn:Hcall;
      eexists _, _; (split; [reflexivity|]);
      do 3 (split; [reflexivity|]); (split; [intros [=]|]).
    + intros e w [[_ [=]]|[[=] _]].
    + intros e w [[_ [= <- <-]]|[[=] _]]. reflexivity.
  - (* Gemini *)
    unfold Exn.try_except, generate, Exn.bind, ext, Exn.ret.
    destruct (gemini_generate (full_prompt (build_context results) question)
                (env_world env1))
      as [[response|e0] w0] eqn:Hcall;
      eexists _, _; (split; [reflexivity|]);
      do 3 (split; [reflexivity|]); (split; [intros [=]|]).
    + intros e w [[[=] _]|[_ [=]]].
    + intros e w [[[=] _]|[_ [= <- <-]]]. reflexivity.
  - (* no back end *)
    unfold Exn.bind, Exn.ret.
    eexists _, _. split; [reflexivity|].
    do 3 (split; [reflexivity|]).
    split.
    + intros _. split; [reflexivity|]. split; reflexivity.
    + intros e w [[[=] _]|[[=] _]].
Qed.

(** C9: when loading yields no document, [ingest_documents] returns 0
    and leaves the environment as it was: the store object with its
    cached handle, the external index, and the trace of external calls,
    to which nothing is added (no [create_index], no upsert). *)
Theorem ingest_no_documents fuel (self : RAGPipeline) directory recreate_index
    (env : Env) :
  load_directory directory = Ok [] ->
  ingest_documents fuel self directory recreate_index env = Some (Ok 0, env).
Proof.
  intros Hload. unfold ingest_documents.
  rewrite Hload. reflexivity.
Qed.

End Claims.

Lemma query_returns_after_retrieval_witness :
  exists resp env',
    @query _ _ _ (Demo.client true true) (DemoServices.services [] false)
      (DemoServices.pipeline None) DemoServices.question None (Demo.env None)
    = (Ok resp, env') /\
    retrieved_chunks resp = 1 /\
    starts_with (lit "Retrieved context") (answer resp) = true /\
    answer resp
    = lit "Retrieved context (LLM not configured):" ++ [LF; LF]
      ++ lit "[1] From 'notes.txt' (similarity: 1.000):" ++ [LF]
      ++ lit "A hash table maps keys to values.".
Proof.
  destruct (@query_returns_after_retrieval _ _ _
              (Demo.client true true) (DemoServices.services [] false)
              (DemoServices.pipeline None) DemoServices.question None
              (Demo.env None)
              (mkEnv (Demo.store (Some 7%nat)) []
                 [mkEvent (CallGetIndex (lit "cs_interview_docs")) true;
                  mkEvent (CallQuery 7%nat (mkQueryParams [21] 5 128 None)) true])
              [21] [DemoServices.hit_result]
              eq_refl eq_refl ltac:(discriminate))
    as (resp & env' & Hrun & _ & Hn & _ & Hnone & _).
  destruct (Hnone eq_refl) as (_ & Hpre & Hans).
  exists resp, env'. split; [exact Hrun|]. split; [exact Hn|].
  split; [exact Hpre|exact Hans].
Defined.

Lemma ingest_no_documents_witness :
  @ingest_documents _ _ _ (Demo.client true true) (DemoServices.services [] true)
    3 (DemoServices.pipeline None) (lit "data/empty") true (Demo.env (Some 7%nat))
  = Some (Ok 0, Demo.env (Some 7%nat)).
Proof.
  apply (@ingest_no_documents _ _ _ (Demo.client true true)
           (DemoServices.services [] true)).
  reflexivity.
Defined.

End PipelineSpec.

(** * Further properties of the chunker *)

Module StripFacts.
Import Py PyFacts.

Lemma lstrip_nil_iff s :
  lstrip s = [] <-> Forall (fun c => isspace c = true) s.
Proof.
  induction s as [|c s IH]; simpl; [by split; [constructor|]|].
  destruct (isspace c) eqn:E.
  - rewrite IH. split; [by constructor|]. by intros [_ ?]%Forall_cons.
  - split; [done|]. intros [Hc _]%Forall_cons. congruence.
Qed.

Lemma strip_nil_iff s :
  strip s = [] <-> Forall (fun c => isspace c = true) s.
Proof.
  rewrite <- lstrip_nil_iff. unfold strip. split.
  - destruct (lstrip_head s) as [->|(c & t & -> & E)]; [done|].
    destruct (rstrip_keeps_head c t E) as [u ->]. done.
  - intros ->. reflexivity.
Qed.

(** A string that holds a character that is not whitespace does not
    strip to the empty string. *)
Lemma strip_nonempty s x : x ∈ s -> isspace x = false -> strip s <> [].
Proof.
  intros Hin Hx Hnil. apply strip_nil_iff in Hnil.
  rewrite Forall_forall in Hnil. specialize (Hnil x Hin). congruence.
Qed.

Lemma strip_head s :
  strip s <> [] -> exists c, head (strip s) = Some c /\ isspace c = false.
Proof.
  unfold strip. intros Hne.
  destruct (lstrip_head s) as [E|(c & t & E & Hc)]; rewrite E in *; [done|].
  destruct (rstrip_keeps_head c t Hc) as [u ->]. by exists c.
Qed.

Lemma strip_last s :
  strip s <> [] -> exists c, last (strip s) = Some c /\ isspace c = false.
Proof.
  unfold strip, rstrip. intros Hne.
  destruct (lstrip_head (rev (lstrip s))) as [E|(c & t & E & Hc)];
    rewrite E in *; [done|].
  exists c. simpl. by rewrite last_snoc.
Qed.

Lemma slice_elem {A} (s : list A) (a b p : Z) x :
  0 <= a <= p -> p < b <= len s ->
  s !! Z.to_nat p = Some x -> x ∈ slice s a b.
Proof.
  intros Ha Hb Hp. unfold slice.
  rewrite !norm_index_id by lia.
  apply (list_elem_of_lookup_2 _ (Z.to_nat p - Z.to_nat a)%nat).
  rewrite lookup_take_lt by lia. rewrite lookup_drop.
  by replace (Z.to_nat a + (Z.to_nat p - Z.to_nat a))%nat with (Z.to_nat p) by lia.
Qed.

(** A window that holds a character that is not whitespace has
    non-empty stripped content. *)
Lemma window_has_content (text : str) (s e p : Z) x :
  0 <= s <= p -> p < e <= len text ->
  text !! Z.to_nat p = Some x -> isspace x = false ->
  truthy (strip (slice text s e)) = true.
Proof.
  intros Hs He Hp Hx. apply truthy_true.
  eapply strip_nonempty; [|exact Hx]. by eapply slice_elem.
Qed.

(** A window whose stripped content is empty holds only whitespace. *)
Lemma window_blank (text : str) (s e p : Z) x :
  0 <= s <= p -> p < e <= len text ->
  text !! Z.to_nat p = Some x ->
  truthy (strip (slice text s e)) = false ->
  isspace x = true.
Proof.
  intros Hs He Hp Hcc.
  destruct (isspace x) eqn:Hx; [done|].
  by rewrite (window_has_content text s e p x) in Hcc.
Qed.

End StripFacts.

Module ChunkerRuns.
Import Py PyFacts StripFacts Chunker ChunkerFacts.

(** The test of line 45: [not text or not text.strip()]. *)
Definition is_blank (text : str) : bool :=
  negb (truthy text) || negb (truthy (strip text)).

Lemma is_blank_strip text : is_blank text = true <-> strip text = [].
Proof.
  unfold is_blank. destruct text as [|c t]; [done|]. simpl.
  destruct (strip (c :: t)); simpl; split; congruence.
Qed.

Lemma chunk_text_blank fuel self text source_ :
  is_blank text = true -> chunk_text fuel self text source_ = Some [].
Proof. intros Hb. unfold chunk_text. fold (is_blank text). by rewrite Hb. Qed.

Lemma chunk_text_nonblank fuel self text source_ :
  is_blank text = false ->
  chunk_text fuel self text source_
  = match chunk_loop fuel self (strip text) source_ (mkLoop 0 0 []) with
    | None => None
    | Some chunks => Some (map (set_total (len chunks)) chunks)
    end.
Proof. intros Hb. unfold chunk_text. fold (is_blank text). by rewrite Hb. Qed.

(** The chunk one iteration appends, if any. *)
Definition new_chunks (self : TextChunker) (text source_ : str)
    (st : loop_state) : list Chunk :=
  let e := chunk_end self text (st_start st) in
  let cc := strip (slice text (st_start st) e) in
  if truthy cc then
    [mkChunk cc (st_chunk_id st) source_ (st_start st) e
       {[ "chunk_size"%string := len cc; "total_chunks"%string := -1 ]}]
  else [].

(** The exit test of line 89. *)
Lemma exit_test (e ov L : Z) :
  (e - ov >=? L) || (e - ov =? e - ov) && (e =? L) = true <->
  L <= e - ov \/ e = L.
Proof.
  rewrite Z.eqb_refl. cbn [andb].
  destruct (Z.geb_spec (e - ov) L); destruct (Z.eqb_spec e L); simpl;
    split; intros; try done; try lia; auto.
Qed.

Lemma exit_test_false (e ov L : Z) :
  (e - ov >=? L) || (e - ov =? e - ov) && (e =? L) = false ->
  e <> L /\ e - ov < L.
Proof.
  intros Hf. destruct (Z.eq_dec e L) as [He|He].
  - assert ((e - ov >=? L) || (e - ov =? e - ov) && (e =? L) = true) as Ht
      by (apply exit_test; by right).
    congruence.
  - split; [done|]. destruct (Z.lt_ge_cases (e - ov) L) as [|Hge]; [done|].
    assert ((e - ov >=? L) || (e - ov =? e - ov) && (e =? L) = true) as Ht
      by (apply exit_test; left; lia).
    congruence.
Qed.

(** One iteration, exactly: where the cursor goes, what is appended,
    and when the loop is left. *)
Lemma loop_body_exact self text source_ st :
  let e := chunk_end self text (st_start st) in
  exists st',
    st_start st' = e - chunk_overlap self /\
    st_chunks st' = st_chunks st ++ new_chunks self text source_ st /\
    (loop_body self text source_ st = Break st' /\
     (len text <= e - chunk_overlap self \/ e = len text)
     \/
     loop_body self text source_ st = Continue st' /\
     e <> len text /\ st_start st' < len text).
Proof.
  cbn zeta.
  exists (match loop_body self text source_ st with
          | Continue s | Break s => s
          end).
  unfold loop_body, new_chunks.
  set (e := chunk_end self text (st_start st)).
  set (cc := strip (slice text (st_start st) e)).
  destruct (truthy cc); cbn [st_start st_chunk_id st_chunks];
    destruct (_ || _) eqn:Hbr;
    (split; [reflexivity|]); cbn [st_chunks];
    (split; [by rewrite ?app_nil_r|]);
    first [left; split; [reflexivity|by apply exit_test]
          |right; split; [reflexivity|by apply exit_test_false]].
Qed.

(** Induction over the iterations of a run that returned: [P] holds of
    the state at the top of each iteration, [Q] of the list returned. *)
Lemma chunk_loop_run_ind self text source_
    (P : loop_state -> Prop) (Q : list Chunk -> Prop) :
  valid self ->
  (forall st st',
     P st -> start_inv self text (st_start st) -> st_start st < len text ->
     loop_body self text source_ st = Continue st' -> P st') ->
  (forall st st',
     P st -> start_inv self text (st_start st) -> st_start st < len text ->
     loop_body self text source_ st = Break st' -> Q (st_chunks st')) ->
  (forall st, P st -> len text <= st_start st -> Q (st_chunks st)) ->
  forall fuel st chunks,
    start_inv self text (st_start st) -> chunks_inv self text st -> P st ->
    chunk_loop fuel self text source_ st = Some chunks ->
    Q chunks.
Proof.
  intros Hv Hcont Hbreak Hexit.
  induction fuel as [|fuel IH]; intros st chunks Hst Hinv HP Hrun; [done|].
  simpl in Hrun.
  destruct (Z.ltb_spec (st_start st) (len text)) as [Hlt|Hge].
  - pose proof (loop_body_inv self text source_ st Hv Hst Hinv Hlt) as Hstep.
    destruct (loop_body self text source_ st) as [st'|st'] eqn:Hbody.
    + destruct Hstep as [Hst' Hinv']. apply (IH st'); try done.
      by eapply Hcont.
    + injection Hrun as <-. by eapply Hbreak.
  - injection Hrun as <-. by apply Hexit.
Qed.


End ChunkerRuns.

Module ChunkerMore.
Import Py PyFacts StripFacts Chunker ChunkerFacts ChunkerRuns.

(** A run on a non-empty text whose first and last characters are not
    whitespace: the first chunk starts at 0 and the last one ends at the
    end of the text. *)
Lemma chunk_loop_ends self text source_ :
  valid self -> text <> [] ->
  (forall c, head text = Some c -> isspace c = false) ->
  (forall c, last text = Some c -> isspace c = false) ->
  forall fuel chunks,
    chunk_loop fuel self text source_ (mkLoop 0 0 []) = Some chunks ->
    (exists c, head chunks = Some c /\ start_char c = 0) /\
    (exists c, last chunks = Some c /\ end_char c = len text).
Proof.
  intros Hv Hne Hhead Hlast fuel chunks Hrun.
  assert (0 < len text) as HL by (unfold len; destruct text; simpl; [done|lia]).
  destruct (text !! 0%nat) as [c0|] eqn:H0;
    [|apply lookup_ge_None in H0; unfold len in HL; lia].
  assert (isspace c0 = false) as Hc0 by (apply Hhead; by rewrite head_lookup).
  destruct (last text) as [cl|] eqn:Hl; [|by apply last_None in Hl].
  assert (isspace cl = false) as Hcl by (by apply Hlast).
  rewrite last_lookup in Hl.
  set (P := fun st : loop_state =>
    st_start st < len text /\
    match st_chunks st with
    | [] => st_start st = 0
    | c :: _ => start_char c = 0
    end).
  assert (forall st, P st -> start_inv self text (st_start st) ->
            st_chunks st = [] ->
            exists c, new_chunks self text source_ st = [c] /\ start_char c = 0)
    as Hfirst.
  { intros st [Hlt Hs] Hst Hnil. rewrite Hnil in Hs.
    destruct (chunk_end_spec self text _ Hv Hst Hlt) as (He & Hpos & _).
    unfold new_chunks.
    rewrite (window_has_content text (st_start st) _ 0 c0); try done; try lia.
    eexists. split; [reflexivity|]. done. }
  set (Q := fun chunks : list Chunk =>
    (exists c, head chunks = Some c /\ start_char c = 0) /\
    (exists c, last chunks = Some c /\ end_char c = len text)).
  apply (fun a b c d e f =>
           chunk_loop_run_ind self text source_ P Q Hv a b c fuel
             (mkLoop 0 0 []) chunks d e f Hrun).
  - (* the loop goes on *)
    intros st st' HP Hst Hlt Hbody.
    destruct (loop_body_exact self text source_ st)
      as (st2 & Hstart & Hchunks & [[Hb _]|(Hc & _ & Hlt')]); [congruence|].
    rewrite Hbody in Hc. injection Hc as <-.
    split; [done|]. rewrite Hchunks.
    destruct (st_chunks st) as [|c rest] eqn:Hcs.
    + destruct (Hfirst st HP Hst Hcs) as (c & -> & Hc). done.
    + destruct HP as [_ HP]. by rewrite Hcs in HP.
  - (* the loop is left from inside *)
    intros st st' HP Hst Hlt Hbody.
    destruct (loop_body_exact self text source_ st)
      as (st2 & Hstart & Hchunks & [[Hb Hexit]|(Hc & _)]); [|congruence].
    rewrite Hbody in Hb. injection Hb as <-.
    destruct (chunk_end_spec self text _ Hv Hst Hlt) as (He & Hpos & Hneg & _).
    destruct Hv as (Hsz & Hov).
    assert (chunk_end self text (st_start st) = len text) as Hend by lia.
    assert (0 <= st_start st) as Hs0 by lia.
    assert (exists c, new_chunks self text source_ st = [c] /\
                      start_char c = st_start st /\ end_char c = len text)
      as (c & Hnew & Hcs & Hce).
    { unfold new_chunks.
      rewrite (window_has_content text (st_start st) _ (len text - 1) cl);
        try done; try lia.
      - eexists. split; [reflexivity|]. by split.
      - unfold len. by replace (Z.to_nat (Z.of_nat (length text) - 1))
          with (pred (length text)) by lia. }
    rewrite Hchunks, Hnew. split.
    + destruct (st_chunks st) as [|c' rest] eqn:Hcs'.
      * exists c. split; [done|]. destruct HP as [_ HP]. rewrite Hcs' in HP. lia.
      * exists c'. split; [done|]. destruct HP as [_ HP]. by rewrite Hcs' in HP.
    + exists c. by rewrite last_snoc.
  - (* the loop condition fails *)
    intros st [Hlt _] Hge. lia.
  - destruct Hv. split; simpl; lia.
  - repeat split; simpl; [constructor|]. by intros i c.
  - by split.
Qed.



(** X1: [chunk_text] returns the empty list exactly for a text that is
    empty or holds only whitespace. *)
Theorem chunk_text_empty_iff_blank fuel self text source_ chunks :
  valid self ->
  chunk_text fuel self text source_ = Some chunks ->
  (chunks = [] <-> is_blank text = true).
Proof.
  intros Hv Hrun. split.
  - intros ->. destruct (is_blank text) eqn:Hb; [done|]. exfalso.
    rewrite (chunk_text_nonblank _ _ _ _ Hb) in Hrun.
    destruct (chunk_loop _ _ _ _ _) as [raw|] eqn:Hloop; [|done].
    assert (strip text <> []) as Hne.
    { intros E. apply is_blank_strip in E. congruence. }
    destruct (chunk_loop_ends self (strip text) source_ Hv Hne) with
      (fuel := fuel) (chunks := raw) as [(c & Hc & _) _]; try done.
    + intros c Hc. destruct (strip_head text Hne) as (c' & Hc' & ?). congruence.
    + intros c Hc. destruct (strip_last text Hne) as (c' & Hc' & ?). congruence.
    + destruct raw; [done|]. discriminate Hrun.
  - intros Hb. rewrite (chunk_text_blank _ _ _ _ Hb) in Hrun. congruence.
Qed.


(** Where a window ends, by the sign of the cursor. *)
Lemma chunk_end_shape self text start :
  valid self -> start_inv self text start -> start < len text ->
  let e := chunk_end self text start in
  (0 <= start ->
     e = len text \/ e = start + chunk_size self \/
     start + chunk_size self / 2 + 2 <= e) /\
  (start < 0 -> e <= start + chunk_size self \/ e <= 1).
Proof.
  intros (Hsz & Hov) (Hlo & Hneg) Hlt. unfold chunk_end.
  pose proof (len_nonneg text) as HL.
  set (e0 := Z.min (start + chunk_size self) (len text)).
  destruct (Z.ltb_spec e0 (len text)) as [He0|He0];
    [|cbn zeta; split; intros; [left|]; subst e0; lia].
  assert (e0 = start + chunk_size self) as He0' by (subst e0; lia).
  destruct (find_break_cases self text start e0 break_chars)
    as [->|(bc & Hin & Hgt & ->)]; [cbn zeta; split; intros; lia|].
  assert (1 <= len bc <= 2) as Hbc.
  { pose proof break_chars_len as HF. rewrite Forall_forall in HF. by apply HF. }
  cbn zeta. split; intros Hs; [lia|].
  destruct (rfind_range text bc start e0) as [Hnf|[Hge Hle]]; [lia|].
  rewrite (norm_index_id (len text) e0) in Hle by lia. lia.
Qed.

(** Position [p] lies in the window of one of the chunks. *)
Definition covered (p : Z) (chunks : list Chunk) : Prop :=
  exists c, c ∈ chunks /\ start_char c <= p < end_char c.

Lemma covered_app_l p chunks more : covered p chunks -> covered p (chunks ++ more).
Proof. intros (c & Hin & Hp). exists c. split; [|done]. apply elem_of_app. by left. Qed.

(** What the loop has covered so far: every character below [B] that is
    not whitespace. *)
Definition covers_below (text : str) (B : Z) (chunks : list Chunk) : Prop :=
  forall p x, 0 <= p < B -> text !! Z.to_nat p = Some x -> isspace x = false ->
    covered p chunks.

Definition cover_inv (self : TextChunker) (text : str) (st : loop_state) : Prop :=
  exists B,
    st_start st <= B /\
    (st_start st < 0 -> chunk_size self - chunk_overlap self <= B) /\
    covers_below text B (st_chunks st).

Lemma cover_step self text source_ st :
  valid self -> start_inv self text (st_start st) -> st_start st < len text ->
  cover_inv self text st ->
  let e := chunk_end self text (st_start st) in
  exists B',
    e - chunk_overlap self <= B' /\
    (e <> len text -> e - chunk_overlap self < 0 ->
       chunk_size self - chunk_overlap self <= B') /\
    (0 <= st_start st -> e <= B') /\
    covers_below text B' (st_chunks st ++ new_chunks self text source_ st).
Proof.
  intros Hv Hst Hlt (B & HsB & HnegB & Hcov). cbn zeta.
  destruct (chunk_end_spec self text _ Hv Hst Hlt) as (He & Hpos & _).
  destruct (chunk_end_shape self text _ Hv Hst Hlt) as (Hsh0 & Hshn).
  pose proof Hv as (Hsz & Hov).
  destruct (Z.lt_ge_cases (st_start st) 0) as [Hn|Hp].
  - exists B. specialize (HnegB Hn). specialize (Hshn Hn).
    split; [lia|]. split; [lia|]. split; [lia|].
    intros p x Hp Hx Hsp. apply covered_app_l. by eapply Hcov.
  - exists (Z.max B (chunk_end self text (st_start st))).
    specialize (Hpos Hp). specialize (Hsh0 Hp).
    pose proof (Z.div_mod (chunk_size self) 2 ltac:(lia)) as Hdm.
    pose proof (Z.mod_pos_bound (chunk_size self) 2 ltac:(lia)) as Hmb.
    split; [lia|]. split; [lia|]. split; [lia|].
    intros p x Hpr Hx Hsp.
    destruct (Z.lt_ge_cases p B) as [HpB|HpB].
    { apply covered_app_l. eapply Hcov; [lia|done|done]. }
    unfold new_chunks.
    destruct (truthy (strip (slice text (st_start st)
                (chunk_end self text (st_start st))))) eqn:Hcc.
    + eexists. split; [apply elem_of_app; right; by left|]. simpl. lia.
    + exfalso.
      assert (isspace x = true)
        by (eapply (window_blank text (st_start st)
                      (chunk_end self text (st_start st)) p); try done; lia).
      congruence.
Qed.

Lemma chunk_loop_covers self text source_ :
  valid self ->
  forall fuel chunks,
    chunk_loop fuel self text source_ (mkLoop 0 0 []) = Some chunks ->
    covers_below text (len text) chunks.
Proof.
  intros Hv fuel chunks Hrun.
  apply (fun a b c d e f =>
           chunk_loop_run_ind self text source_ (cover_inv self text)
             (covers_below text (len text)) Hv a b c fuel
             (mkLoop 0 0 []) chunks d e f Hrun).
  - intros st st' HP Hst Hlt Hbody.
    destruct (loop_body_exact self text source_ st)
      as (st2 & Hstart & Hchunks & [[Hb _]|(Hc & Hne & _)]); [congruence|].
    rewrite Hbody in Hc. injection Hc as <-.
    destruct (cover_step self text source_ st Hv Hst Hlt HP)
      as (B' & H1 & H2 & _ & H4).
    exists B'. rewrite Hstart, Hchunks. split; [done|]. split; [|done].
    intros Hneg. by apply H2.
  - intros st st' HP Hst Hlt Hbody.
    destruct (loop_body_exact self text source_ st)
      as (st2 & Hstart & Hchunks & [[Hb Hexit]|(Hc & _)]); [|congruence].
    rewrite Hbody in Hb. injection Hb as <-.
    destruct (cover_step self text source_ st Hv Hst Hlt HP)
      as (B' & _ & _ & H3 & H4).
    destruct (chunk_end_spec self text _ Hv Hst Hlt) as (He & _ & Hneg & _).
    destruct Hv as (Hsz & Hov).
    assert (chunk_end self text (st_start st) = len text) as Hend by lia.
    assert (0 <= st_start st) as Hs0 by lia.
    rewrite Hchunks. intros p x Hp. apply H4. specialize (H3 Hs0). lia.
  - intros st (B & HsB & _ & Hcov) Hge p x Hp. apply Hcov. lia.
  - destruct Hv. split; simpl; lia.
  - repeat split; simpl; [constructor|]. by intros i c.
  - exists 0. simpl. split; [lia|]. split; [lia|]. intros p x Hp. lia.
Qed.

(** X3: no text is lost.  Every character of the stripped text that is
    not whitespace lies in the window [start_char, end_char) of one of
    the returned chunks. *)
Theorem chunk_text_covers_text fuel self text source_ chunks :
  valid self ->
  chunk_text fuel self text source_ = Some chunks ->
  forall (p : nat) x,
    strip text !! p = Some x -> isspace x = false ->
    exists c, c ∈ chunks /\ start_char c <= Z.of_nat p < end_char c.
Proof.
  intros Hv Hrun p x Hx Hsp.
  destruct (is_blank text) eqn:Hb.
  { apply is_blank_strip in Hb. by rewrite Hb in Hx. }
  rewrite (chunk_text_nonblank _ _ _ _ Hb) in Hrun.
  destruct (chunk_loop _ _ _ _ _) as [raw|] eqn:Hloop; [|done].
  injection Hrun as <-.
  destruct (chunk_loop_covers self (strip text) source_ Hv fuel raw Hloop
              (Z.of_nat p) x) as (c & Hin & Hc); try done.
  - apply lookup_lt_Some in Hx. unfold len. lia.
  - by rewrite Nat2Z.id.
  - exists (set_total (len raw) c). split; [|done].
    apply list_elem_of_fmap. by exists c.
Qed.




(** *** The properties above on the three-sentence example *)

Definition cfg20 : TextChunker := mkTextChunker 20 5.

Lemma cfg20_valid : valid cfg20.
Proof. unfold valid, cfg20. simpl. lia. Qed.


Lemma chunk_text_empty_iff_blank_witness :
  chunk_text 1 cfg20 (lit "   ") (lit "s") = Some [] /\
  (@nil Chunk = [] <-> is_blank (lit "   ") = true).
Proof.
  split; [reflexivity|].
  apply (chunk_text_empty_iff_blank 1 cfg20 (lit "   ") (lit "s") []);
    [exact cfg20_valid|reflexivity].
Defined.


Lemma chunk_text_covers_text_witness :
  exists c, c ∈ ChunkerSpec.t3_chunks /\ start_char c <= 20 < end_char c.
Proof.
  apply (chunk_text_covers_text 4 cfg20 ChunkerExamples.t3 (lit "s")
           ChunkerSpec.t3_chunks cfg20_valid ChunkerSpec.t3_run 20%nat 99%N);
    reflexivity.
Defined.







End ChunkerMore.

(** * Further properties of the embedder *)

Module EmbedderMore.
Import Py PyFacts Exn Embedder EmbedderSpec.

Section Batch.
Context {F : Type}.

Definition kept (texts : list str) : list str :=
  filter (fun t => has_text t = true) texts.

Lemma scatter_length (vi : list nat) : forall i (embeddings res out : list (list F)),
  scatter i vi embeddings res = Ok out -> length out = length res.
Proof.
  induction vi as [|idx vi IH]; intros i embeddings res out; simpl.
  - by intros [= <-].
  - destruct (embeddings !! i) as [row|]; [|done].
    destruct (decide (idx < length res)%nat); [|done].
    intros Hrun. apply IH in Hrun. by rewrite length_insert in Hrun.
Qed.


Lemma kept_nil_iff texts :
  kept texts = [] <-> Forall (fun t => has_text t = false) texts.
Proof.
  unfold kept. induction texts as [|t rest IH]; [by split; [constructor|]|].
  destruct (has_text t) eqn:E.
  - rewrite filter_cons_True by done. split; [done|].
    intros [Ht _]%Forall_cons. congruence.
  - rewrite filter_cons_False by (by rewrite E). rewrite IH.
    split; [by constructor|]. by intros [_ ?]%Forall_cons.
Qed.

(** [embed_batch] as a function of what the model answers on the kept
    texts. *)
Lemma embed_batch_unfold (model : list str -> result (list (list F))) texts :
  embed_batch model texts
  = if negb (truthy texts) then Ok []
    else if negb (truthy (kept texts)) then Ok (replicate (length texts) [])
    else match model (kept texts) with
         | Raise e => Raise e
         | Ok embeddings =>
             scatter 0 (collect_valid 0 texts).2 embeddings
               (replicate (length texts) [])
         end.
Proof.
  unfold embed_batch, kept. rewrite <- (collect_valid_texts 0 texts).
  by destruct (collect_valid 0 texts).
Qed.

Lemma embed_batch_length_aux (model : list str -> result (list (list F)))
    texts res :
  embed_batch model texts = Ok res -> length res = length texts.
Proof.
  rewrite embed_batch_unfold.
  destruct texts as [|t rest] eqn:Ht; [by intros [= <-]|]. rewrite <- Ht.
  assert (truthy texts = true) as -> by (by subst). cbn [negb].
  destruct (truthy (kept texts)); cbn [negb].
  - destruct (model (kept texts)) as [embeddings|e]; [|done].
    intros Hrun. apply scatter_length in Hrun. by rewrite length_replicate in Hrun.
  - intros [= <-]. by rewrite length_replicate.
Qed.

Lemma scatter_untouched (vi : list nat) :
  forall i (embeddings res out : list (list F)) (j : nat),
    scatter i vi embeddings res = Ok out -> j ∉ vi -> out !! j = res !! j.
Proof.
  induction vi as [|idx vi IH]; intros i embeddings res out j; simpl.
  - by intros [= <-].
  - destruct (embeddings !! i) as [row|]; [|done].
    destruct (decide (idx < length res)%nat); [|done].
    intros Hrun Hj. apply not_elem_of_cons in Hj as [Hne Hj].
    rewrite (IH _ _ _ _ _ Hrun Hj). by apply list_lookup_insert_ne.
Qed.

Lemma collect_valid_indices texts : forall (i j : nat),
  j ∈ (collect_valid i texts).2 ->
  (i <= j)%nat /\ exists t, texts !! (j - i)%nat = Some t /\ has_text t = true.
Proof.
  induction texts as [|t rest IH]; intros i j; simpl.
  - by intros ?%elem_of_nil.
  - specialize (IH (S i) j).
    destruct (collect_valid (S i) rest) as [vt vi]. simpl in IH.
    assert (j ∈ vi ->
            (i <= j)%nat /\
            exists t', (t :: rest) !! (j - i)%nat = Some t' /\ has_text t' = true)
      as Hrest.
    { intros Hin. destruct (IH Hin) as (Hle & t' & Hl & Ht').
      split; [lia|]. exists t'. split; [|done].
      by replace (j - i)%nat with (S (j - S i)) by lia. }
    destruct (has_text t) eqn:E; simpl; [|done].
    intros [->|Hin]%elem_of_cons; [|by apply Hrest].
    split; [lia|]. exists t. by rewrite Nat.sub_diag.
Qed.

(** X9: whatever the model answers, a result of [embed_batch] has as
    many entries as there are texts, and the entry of every empty or
    whitespace-only text is the empty vector. *)
Theorem embed_batch_shape (model : list str -> result (list (list F)))
    texts res :
  embed_batch model texts = Ok res ->
  length res = length texts /\
  forall (j : nat) t, texts !! j = Some t -> has_text t = false ->
    res !! j = Some [].
Proof.
  intros Hrun. split; [by apply (embed_batch_length_aux model)|].
  intros j t Hj Ht. rewrite embed_batch_unfold in Hrun.
  assert (truthy texts = true) as Htr by (by destruct texts).
  rewrite Htr in Hrun. cbn [negb] in Hrun.
  assert (replicate (length texts) (@nil F) !! j = Some []) as Hrep.
  { apply lookup_replicate_2. by eapply lookup_lt_Some. }
  destruct (truthy (kept texts)); cbn [negb] in Hrun;
    [|by injection Hrun as <-].
  destruct (model (kept texts)) as [embeddings|e]; [|done].
  rewrite (scatter_untouched _ _ _ _ _ j Hrun); [done|].
  intros Hin. apply collect_valid_indices in Hin as (_ & t' & Hl & Ht').
  rewrite Nat.sub_0_r in Hl. congruence.
Qed.

(** X10: when every text is empty or whitespace-only (also when there is
    no text at all), [embed_batch] returns one empty vector per text and
    does not depend on the model: it is not called. *)
Theorem embed_batch_all_blank (model : list str -> result (list (list F)))
    texts :
  Forall (fun t => has_text t = false) texts ->
  embed_batch model texts = Ok (replicate (length texts) []).
Proof.
  intros Hall. apply kept_nil_iff in Hall.
  rewrite embed_batch_unfold, Hall. by destruct texts.
Qed.

(** X11: the model is asked about the kept texts only, and once: two
    models that answer alike on them give the same [embed_batch]; and if
    the model raises, [embed_batch] raises the same exception. *)
Theorem embed_batch_asks_kept_only
    (model model' : list str -> result (list (list F))) texts :
  model (kept texts) = model' (kept texts) ->
  embed_batch model texts = embed_batch model' texts /\
  (forall e, kept texts <> [] -> model (kept texts) = Raise e ->
     embed_batch model texts = Raise e).
Proof.
  intros Hsame. rewrite !embed_batch_unfold, <- Hsame. split; [done|].
  intros e Hne ->.
  destruct texts as [|t rest] eqn:Ht; [done|]. rewrite <- Ht in *.
  assert (truthy texts = true) as -> by (by subst).
  by destruct (kept texts).
Qed.


End Batch.

(** A model that always raises, and one that drops the last row. *)
Definition broken_model (_ : list str) : result (list (list Z)) :=
  Raise (mkExn ExternalError (lit "model unavailable")).


Lemma embed_batch_shape_witness :
  length [ [] ; [11] ] = length [ []; lit "hello world" ] /\
  forall (j : nat) t, [ []; lit "hello world" ] !! j = Some t ->
    has_text t = false -> [ [] ; [11] ] !! j = Some [].
Proof.
  apply (embed_batch_shape length_model [ []; lit "hello world" ]).
  reflexivity.
Defined.

Lemma embed_batch_all_blank_witness :
  embed_batch broken_model [ []; lit "  " ] = Ok [ []; [] ].
Proof.
  apply (embed_batch_all_blank broken_model [ []; lit "  " ]).
  repeat constructor.
Defined.

Lemma embed_batch_asks_kept_only_witness :
  embed_batch broken_model [ []; lit "a" ]
  = Raise (mkExn ExternalError (lit "model unavailable")).
Proof.
  apply (embed_batch_asks_kept_only broken_model broken_model
           [ []; lit "a" ] eq_refl); [discriminate|reflexivity].
Defined.


End EmbedderMore.

(** * Further properties of the vector store *)

Module StoreMore.
Import Py PyFacts Exn Chunker Store StoreFacts.

Section Lifecycle.
Context {W Handle F : Type} `{!@EndeeClient W Handle F}.

Local Abbreviation Env := (@Store.Env W Handle F).
Local Abbreviation Event := (@Store.Event Handle F).

(** The external calls made between two states of the environment. *)
Definition calls_made (env env' : Env) : list Event :=
  drop (length (env_trace env)) (env_trace env').

Lemma calls_made_app (env : Env) store w evs :
  calls_made env (mkEnv store w (env_trace env ++ evs)) = evs.
Proof. unfold calls_made. simpl. by rewrite drop_app_length. Qed.

Lemma calls_made_refl (env : Env) : calls_made env env = [].
Proof. unfold calls_made. by rewrite drop_all. Qed.

(** X13: the index handle is resolved lazily and once.  After a
    [_get_index] that returned [h], the handle is cached, and a further
    [_get_index] returns [h] again without any external call. *)
Theorem get_index_caches (env env1 : Env) h :
  _get_index env = (Ok h, env1) ->
  _index (env_store env1) = Some h /\
  _get_index env1 = (Ok h, env1).
Proof.
  unfold _get_index at 1. run_action.
  destruct (_index (env_store env)) as [h0|] eqn:Hc; simpl.
  - intros [= <- <-]. split; [done|].
    unfold _get_index. run_action. by rewrite Hc.
  - destruct (client_get_index (index_name (env_store env)) (env_world env))
      as [[h1|e] w]; simpl; [|done].
    intros [= <- <-]. split; [done|].
    unfold _get_index. by run_action.
Qed.

Definition is_delete (ev : Event) : bool :=
  match ev_call ev with CallDeleteIndex _ => true | _ => false end.

Definition is_create (ev : Event) : bool :=
  match ev_call ev with CallCreateIndex _ _ _ _ => true | _ => false end.

Ltac trace_goal :=
  repeat rewrite <- app_assoc; rewrite ?calls_made_app; simpl;
  repeat split; try done; repeat constructor.

(** X14: [create_index(recreate=False)] never calls [delete_index],
    whatever the listing returns and whichever call fails. *)
Theorem create_index_keeps_data (env : Env) :
  Forall (fun ev => is_delete ev = false)
    (calls_made env (create_index false env).2).
Proof.
  unfold create_index. run_action.
  destruct (client_list_indexes (env_world env)) as [[entries|e] w]; simpl.
  - destruct (index_listed (index_name (env_store env)) entries)
      as [[|]|e]; simpl.
    + destruct (client_get_index _ w) as [[h|e] w1]; simpl; trace_goal.
    + destruct (client_create_index _ _ _ _ w) as [[[]|e] w1]; simpl;
        [|trace_goal].
      destruct (client_get_index _ w1) as [[h|e] w2]; simpl; trace_goal.
    + destruct (client_create_index _ _ _ _ w) as [[[]|e1] w1]; simpl;
        [|trace_goal].
      destruct (client_get_index _ w1) as [[h|e1] w2]; simpl; trace_goal.
  - destruct (client_create_index _ _ _ _ w) as [[[]|e1] w1]; simpl;
      [|trace_goal].
    destruct (client_get_index _ w1) as [[h|e1] w2]; simpl; trace_goal.
Qed.

(** X15: when the listing shows the index and [recreate] is false,
    [create_index] neither deletes nor creates: its only further call is
    [get_index], whose handle it caches. *)
Theorem create_index_reuses (env : Env) entries w :
  client_list_indexes (env_world env) = (Ok entries, w) ->
  index_listed (index_name (env_store env)) entries = Ok true ->
  let name := index_name (env_store env) in
  let got := client_get_index name w in
  calls_made env (create_index false env).2
    = [mkEvent CallListIndexes true;
       mkEvent (CallGetIndex name) (is_ok got.1)] /\
  env_world (create_index false env).2 = got.2 /\
  match got.1 with
  | Ok h =>
      (create_index false env).1 = Ok tt /\
      _index (env_store (create_index false env).2) = Some h
  | Raise e =>
      (create_index false env).1 = Raise e /\
      _index (env_store (create_index false env).2) = _index (env_store env)
  end.
Proof.
  intros Hlist Hlisted. cbn zeta.
  unfold create_index. run_action. rewrite Hlist. simpl. rewrite Hlisted. simpl.
  destruct (client_get_index (index_name (env_store env)) w) as [[h|e] w1];
    simpl; trace_goal.
Qed.

(** What the listing step concludes: [None] when the call raised or its
    answer could not be read. *)
Definition listing (env : Env) : option bool :=
  match (client_list_indexes (env_world env)).1 with
  | Ok entries =>
      match index_listed (index_name (env_store env)) entries with
      | Ok b => Some b
      | Raise _ => None
      end
  | Raise _ => None
  end.

(** X16: a listing that fails is not fatal.  When [list_indexes] raises,
    or returns dicts mixed with bare names, [create_index] goes on as
    for an absent index: it creates the index and caches its handle. *)
Theorem create_index_tolerates_listing (env : Env) recreate w2 h w3 :
  listing env = None ->
  let name := index_name (env_store env) in
  let dim := dimension (env_store env) in
  let w1 := (client_list_indexes (env_world env)).2 in
  client_create_index name dim (lit "cosine") INT8D w1 = (Ok tt, w2) ->
  client_get_index name w2 = (Ok h, w3) ->
  create_index recreate env
  = (Ok tt,
     mkEnv (mkStore name dim (Some h)) w3
       (env_trace env
        ++ [mkEvent CallListIndexes (is_ok (client_list_indexes (env_world env)).1);
            mkEvent (CallCreateIndex name dim (lit "cosine") INT8D) true;
            mkEvent (CallGetIndex name) true])).
Proof.
  unfold listing. cbn zeta. intros Hl Hcreate Hget.
  unfold create_index.
  unfold Exn.bind, Exn.ret, Exn.gets, Exn.modify, Exn.lift, Exn.try_except,
    ext, set_index.
  destruct (client_list_indexes (env_world env)) as [[entries|e] w]; simpl in *.
  - destruct (index_listed (index_name (env_store env)) entries)
      as [b|e] eqn:Hlisted; [done|]. simpl.
    rewrite Hcreate. simpl. rewrite Hget. simpl.
    by rewrite <- !app_assoc.
  - rewrite Hcreate. simpl. rewrite Hget. simpl.
    by rewrite <- !app_assoc.
Qed.

(** X17: whether [list_indexes] answers with bare names or with dicts
    holding a ["name"], the index is found exactly when its name is in
    the answer. *)
Theorem index_listed_shapes (name : str) (names : list str) :
  index_listed name (map EntryName names) = Ok (bool_decide (name ∈ names)) /\
  index_listed name (map (fun n => EntryDict (Some n)) names)
  = Ok (bool_decide (name ∈ names)).
Proof.
  assert (forall l : list str,
            existsb (entry_is name) (map EntryName l) = bool_decide (name ∈ l))
    as Hnames.
  { induction l as [|n l IH]; simpl; [done|]. rewrite IH.
    destruct (decide (n = name)) as [->|Hne].
    - rewrite bool_decide_eq_true_2 by done. simpl.
      symmetry. apply bool_decide_eq_true_2. by left.
    - rewrite bool_decide_eq_false_2 by done. simpl.
      apply bool_decide_ext. rewrite elem_of_cons.
      split; [by right|]. intros [?|?]; [congruence|done]. }
  assert (forall l : list str,
            dict_names (map (fun n => EntryDict (Some n)) l)
            = Ok (map Some l)) as Hdict.
  { induction l as [|n l IH]; simpl; [done|]. by rewrite IH. }
  assert (forall l : list str,
            existsb (fun n => bool_decide (n = Some name)) (map Some l)
            = bool_decide (name ∈ l)) as Hsome.
  { induction l as [|n l IH]; simpl; [done|]. rewrite IH.
    destruct (decide (n = name)) as [->|Hne].
    - rewrite bool_decide_eq_true_2 by done. simpl.
      symmetry. apply bool_decide_eq_true_2. by left.
    - rewrite bool_decide_eq_false_2 by congruence. simpl.
      apply bool_decide_ext. rewrite elem_of_cons.
      split; [by right|]. intros [?|?]; [congruence|done]. }
  split.
  - destruct names as [|n l]; [done|].
    change (index_listed name (map EntryName (n :: l)))
      with (Ok (existsb (entry_is name) (map EntryName (n :: l)))).
    f_equal. apply Hnames.
  - destruct names as [|n l]; [done|].
    change (index_listed name (map (fun n => EntryDict (Some n)) (n :: l)))
      with (match dict_names (map (fun n => EntryDict (Some n)) (n :: l)) with
            | Ok names => Ok (existsb (fun n => bool_decide (n = Some name)) names)
            | Raise e => Raise e
            end).
    rewrite Hdict. f_equal. apply Hsome.
Qed.

End Lifecycle.

(** A client whose listing call fails. *)
#[local] Instance unlistable_client
    : @EndeeClient (list (@VectorRecord Z)) nat Z := {|
  client_list_indexes w := (Raise Demo.refused, w);
  client_delete_index _ w := (Ok tt, []);
  client_create_index _ _ _ _ w := (Ok tt, w);
  client_get_index _ w := (Ok 7%nat, w);
  index_upsert _ batch w := (Ok tt, w ++ batch);
  index_query _ _ w := (Ok [], w)
|}.

Definition resolved_env : @Env (list (@VectorRecord Z)) nat Z :=
  mkEnv (Demo.store (Some 7%nat)) []
    [mkEvent (CallGetIndex (lit "cs_interview_docs")) true].

Lemma get_index_caches_witness :
  _index (env_store resolved_env) = Some 7%nat /\
  @_get_index _ _ _ (Demo.client true true) resolved_env
  = (Ok 7%nat, resolved_env).
Proof.
  apply (@get_index_caches _ _ _ (Demo.client true true) (Demo.env None)).
  reflexivity.
Defined.

Lemma create_index_reuses_witness :
  calls_made (Demo.env None)
    (@create_index _ _ _ (Demo.client true true) false (Demo.env None)).2
  = [mkEvent CallListIndexes true;
     mkEvent (CallGetIndex (lit "cs_interview_docs")) true] /\
  _index (env_store
            (@create_index _ _ _ (Demo.client true true) false (Demo.env None)).2)
  = Some 7%nat.
Proof.
  destruct (@create_index_reuses _ _ _ (Demo.client true true) (Demo.env None)
              [EntryName (lit "cs_interview_docs")] [] eq_refl eq_refl)
    as (Hcalls & _ & _ & Hidx).
  split; [exact Hcalls|exact Hidx].
Defined.

Lemma create_index_tolerates_listing_witness :
  @create_index _ _ _ unlistable_client true (Demo.env None)
  = (Ok tt,
     mkEnv (Demo.store (Some 7%nat)) ([] : list (@VectorRecord Z))
       [mkEvent CallListIndexes false;
        mkEvent (CallCreateIndex (lit "cs_interview_docs") 384 (lit "cosine") INT8D) true;
        mkEvent (CallGetIndex (lit "cs_interview_docs")) true]).
Proof.
  apply (@create_index_tolerates_listing _ _ _ unlistable_client
           (Demo.env None) true [] 7%nat []); reflexivity.
Defined.

Section Records.
Context {W Handle F : Type} `{!@EndeeClient W Handle F}.

Local Abbreviation Env := (@Store.Env W Handle F).
Local Abbreviation Event := (@Store.Event Handle F).
Local Abbreviation VectorRecord := (@Store.VectorRecord F).

Lemma range_elem (i n : Z) :
  i ∈ range 0 n batch_size -> exists k : nat, i = 100 * Z.of_nat k /\ i < n.
Proof.
  unfold range, batch_size. intros (k & -> & Hk)%list_elem_of_fmap.
  exists k. split; [lia|].
  apply elem_of_seq in Hk.
  pose proof (Z.div_mod (n - 0 + 100 - 1) 100 ltac:(lia)).
  pose proof (Z.mod_pos_bound (n - 0 + 100 - 1) 100 ltac:(lia)).
  lia.
Qed.

Lemma batch_length (v : list VectorRecord) (i : Z) :
  i ∈ range 0 (len v) batch_size ->
  1 <= len (slice v i (i + batch_size)) <= 100.
Proof.
  intros (k & -> & Hlt)%range_elem. unfold batch_size.
  replace (100 * Z.of_nat k) with (Z.of_nat (100 * k)) in * by lia.
  pose proof (slice_nat v (100 * k) 100) as Hs.
  change (Z.of_nat 100) with 100 in Hs. rewrite Hs.
  unfold len in *. rewrite length_take, length_drop. lia.
Qed.

Definition batch_sized (ev : Event) : Prop :=
  match ev_call ev with
  | CallUpsert _ batch => 1 <= len batch <= 100
  | _ => True
  end.

(** The batch loop, whatever the outcome of each send: what was handed
    to [index.upsert] is the first [k] windows. *)
Lemma upsert_batches_sent index (vectors : list VectorRecord) starts :
  (forall i, i ∈ starts -> 1 <= len (slice vectors i (i + batch_size)) <= 100) ->
  forall total (env : Env),
  exists evs (k : nat),
    env_trace (upsert_batches index vectors starts total env).2
      = env_trace env ++ evs /\
    sent_records evs
      = concat (map (fun i => slice vectors i (i + batch_size)) (take k starts)) /\
    Forall batch_sized evs.
Proof.
  induction starts as [|i rest IH]; intros Hsz total env.
  - exists [], 0%nat. simpl. rewrite app_nil_r. repeat split; constructor.
  - simpl. run_action.
    assert (1 <= len (slice vectors i (i + batch_size)) <= 100) as Hi
      by (apply Hsz; by left).
    destruct (index_upsert index (slice vectors i (i + batch_size)) (env_world env))
      as [[[]|e] w] eqn:Hcall; simpl.
    + destruct (IH (fun j Hj => Hsz j (list_elem_of_further _ _ _ Hj))
                  (total + len (slice vectors i (i + batch_size)))
                  (mkEnv (env_store env) w
                     (env_trace env
                      ++ [mkEvent (CallUpsert index (slice vectors i (i + batch_size))) true])))
        as (evs & k & Htr & Hsent & Hall).
      eexists (_ :: evs), (S k).
      split; [rewrite Htr; simpl; by rewrite <- app_assoc|].
      split; [unfold sent_records in *; simpl; by rewrite Hsent|].
      by constructor.
    + eexists [_], 1%nat. simpl. split; [done|].
      split; [unfold sent_records; simpl; by rewrite ?take_0|].
      constructor; [exact Hi|constructor].
Qed.

Lemma concat_take_prefix {A B} (f : A -> list B) (l : list A) (k : nat) :
  concat (map f (take k l)) `prefix_of` concat (map f l).
Proof.
  exists (concat (map f (drop k l))).
  by rewrite <- concat_app, <- map_app, take_drop.
Qed.

(** X18: [upsert_chunks] hands the records to the index in order and
    without repetition, in batches of 1 to 100 records, whatever fails:
    what has been sent at any outcome is an initial part of the records
    built from the chunks. *)
Theorem upsert_chunks_sends_in_order chunks (embeddings : list (list F))
    (env : Env) :
  len chunks = len embeddings ->
  exists evs,
    env_trace (upsert_chunks chunks embeddings env).2 = env_trace env ++ evs /\
    sent_records evs `prefix_of` zip_with make_record chunks embeddings /\
    Forall batch_sized evs.
Proof.
  intros Heq. unfold upsert_chunks.
  rewrite (proj2 (Z.eqb_eq _ _) Heq). cbn [negb].
  destruct (truthy chunks) eqn:Htr; cbn [negb].
  2:{ exists []. simpl. rewrite app_nil_r. split; [done|].
      split; [apply prefix_nil|constructor]. }
  unfold Exn.bind.
  destruct (get_index_run env) as (evs1 & Htr1 & Hsent1 & _).
  assert (Forall batch_sized evs1) as Hb1.
  { revert Htr1. unfold _get_index. run_action.
    destruct (_index (env_store env)); simpl.
    - intros Heq1. assert (evs1 = []) as ->; [|constructor].
      apply (app_inv_head (env_trace env)). by rewrite app_nil_r.
    - destruct (client_get_index _ _) as [[h|e] w]; simpl; intros Heq1;
        apply app_inv_head in Heq1; subst evs1; by repeat constructor. }
  destruct (_get_index env) as [[h|e] env1] eqn:Hget; simpl in *.
  - set (vectors := zip_with make_record chunks embeddings).
    destruct (upsert_batches_sent h vectors (range 0 (len vectors) batch_size)
                (batch_length vectors) 0 env1)
      as (evs2 & k & Htr2 & Hsent2 & Hb2).
    exists (evs1 ++ evs2). split; [by rewrite Htr2, Htr1, app_assoc|].
    split; [|by apply Forall_app].
    rewrite sent_records_app, Hsent1, Hsent2. simpl.
    rewrite <- (batches_cover vectors) at 2. apply concat_take_prefix.
  - exists evs1. split; [done|]. split; [|done].
    rewrite Hsent1. apply prefix_nil.
Qed.

End Records.

(** X19: the preview stored with a record is bounded: it is the content
    itself up to 200 characters, and otherwise its first 200 characters
    followed by ["..."], 203 characters in all. *)
Theorem content_preview_bounded (chunk : Chunk) :
  len (content_preview chunk) <= 203 /\
  (len (content chunk) <= 200 -> content_preview chunk = content chunk) /\
  (200 < len (content chunk) ->
     content_preview chunk = take 200 (content chunk) ++ lit "..." /\
     len (content_preview chunk) = 203).
Proof.
  unfold content_preview.
  assert (slice (content chunk) 0 200 = take 200 (content chunk)) as Hs
    by exact (slice_nat (content chunk) 0 200).
  destruct (Z.gtb_spec (len (content chunk)) 200) as [Hlong|Hshort].
  - rewrite Hs, len_app. change (len (lit "...")) with 3.
    unfold len in *. rewrite length_take.
    split; [lia|]. split; [lia|]. intros _. split; [done|lia].
  - split; [lia|]. split; [done|lia].
Qed.

Lemma upsert_chunks_sends_in_order_witness :
  exists evs,
    env_trace (@upsert_chunks _ _ _ (Demo.client true true)
                 (replicate 201 Demo.one_chunk) (replicate 201 [1])
                 (Demo.env None)).2
      = env_trace (Demo.env None) ++ evs /\
    sent_records evs
      `prefix_of` zip_with make_record (replicate 201 Demo.one_chunk)
                    (replicate 201 [1]) /\
    Forall batch_sized evs.
Proof.
  apply (@upsert_chunks_sends_in_order _ _ _ (Demo.client true true)).
  reflexivity.
Defined.

(** *** Record ids *)

Definition is_digit (c : char) : Prop := (48 <= c <= 57)%N.

(** The number a string of decimal digits denotes. *)
Definition digits_value (s : str) : N :=
  fold_left (fun a d => (10 * a + (d - 48))%N) s 0%N.

(** [int(s)] on the strings [str] produces for an [int]. *)
Definition int_of_str (s : str) : Z :=
  match s with
  | c :: ds =>
      if (c =? 45)%N then - Z.of_N (digits_value ds)
      else Z.of_N (digits_value s)
  | [] => 0
  end.

Lemma digits_fuel_app fuel : forall n acc,
  digits_fuel fuel n acc = digits_fuel fuel n [] ++ acc.
Proof.
  induction fuel as [|fuel IH]; intros n acc; simpl; [done|].
  destruct (n <? 10)%N; [done|].
  rewrite (IH _ (_ :: acc)), (IH _ [_]). by rewrite <- app_assoc.
Qed.

Lemma digits_fuel_digits fuel : forall n acc,
  Forall is_digit acc -> Forall is_digit (digits_fuel fuel n acc).
Proof.
  induction fuel as [|fuel IH]; intros n acc Hacc; simpl; [done|].
  assert (is_digit (48 + n mod 10)%N) as Hd.
  { unfold is_digit. pose proof (N.mod_lt n 10 ltac:(lia)) as Hm.
    revert Hm. generalize (n mod 10)%N. intros m Hm. lia. }
  destruct (n <? 10)%N; [by constructor|]. apply IH. by constructor.
Qed.

Lemma digits_value_snoc l d :
  digits_value (l ++ [d]) = (10 * digits_value l + (d - 48))%N.
Proof. unfold digits_value. by rewrite fold_left_app. Qed.

Lemma div10 (n : N) :
  exists q r, (n / 10 = q /\ n mod 10 = r /\ n = 10 * q + r /\ r < 10)%N.
Proof.
  exists (n / 10)%N, (n mod 10)%N. split; [done|]. split; [done|].
  split; [apply N.div_mod; lia|apply N.mod_lt; lia].
Qed.

Lemma digits_fuel_value fuel : forall n,
  (N.to_nat (N.log2 n) < fuel)%nat ->
  digits_value (digits_fuel fuel n []) = n.
Proof.
  induction fuel as [|fuel IH]; intros n Hfuel; [lia|]. simpl.
  destruct (div10 n) as (q & r & Hq & Hr & Hn & Hr10).
  rewrite Hq, Hr.
  destruct (N.ltb_spec n 10) as [Hsmall|Hbig].
  - unfold digits_value. simpl. lia.
  - rewrite digits_fuel_app, digits_value_snoc.
    assert (0 < q)%N as Hq0 by lia.
    rewrite IH; [lia|].
    pose proof (N.log2_double q Hq0) as Hdbl.
    pose proof (N.log2_le_mono (2 * q) n ltac:(lia)) as Hmono.
    lia.
Qed.

(** Reading back what [str] printed. *)
Lemma int_of_str_of_int z : int_of_str (str_of_int z) = z.
Proof.
  unfold str_of_int.
  set (n := Z.to_N (Z.abs z)).
  pose proof (digits_fuel_value (S (N.to_nat (N.log2 n))) n ltac:(lia)) as Hval.
  pose proof (digits_fuel_digits (S (N.to_nat (N.log2 n))) n [] ltac:(constructor))
    as Hdig.
  destruct (Z.ltb_spec z 0) as [Hneg|Hpos].
  - unfold int_of_str. rewrite N.eqb_refl, Hval. subst n. lia.
  - destruct (digits_fuel _ n []) as [|c ds] eqn:Hds.
    + unfold digits_value in Hval. simpl in *. subst n. lia.
    + unfold int_of_str. apply Forall_cons in Hdig as [Hc _].
      unfold is_digit in Hc.
      destruct (N.eqb_spec c 45); [lia|]. rewrite Hval. subst n. lia.
Qed.

Lemma str_of_int_no_underscore z : Forall (fun c => c <> 95%N) (str_of_int z).
Proof.
  unfold str_of_int.
  assert (Forall (fun c => c <> 95%N)
            (digits_fuel (S (N.to_nat (N.log2 (Z.to_N (Z.abs z)))))
               (Z.to_N (Z.abs z)) [])) as Hd.
  { eapply Forall_impl; [apply digits_fuel_digits; constructor|].
    unfold is_digit. intros c Hc. lia. }
  destruct (z <? 0); [constructor; [lia|done]|done].
Qed.

Lemma cut_at_first {A} (x : A) (r : list A) : forall r' l l',
  r ++ x :: l = r' ++ x :: l' -> x ∉ r -> x ∉ r' -> r = r' /\ l = l'.
Proof.
  induction r as [|c s IH]; intros [|c' s'] l l' Heq Hr Hr'; simpl in *.
  - by injection Heq as ->.
  - injection Heq as <- _. exfalso. apply Hr'. by left.
  - injection Heq as -> _. exfalso. apply Hr. by left.
  - injection Heq as -> Heq.
    apply not_elem_of_cons in Hr as [_ Hr].
    apply not_elem_of_cons in Hr' as [_ Hr'].
    destruct (IH s' l l' Heq Hr Hr') as [-> ->]. done.
Qed.

Lemma not_elem_of_rev {A} (x : A) (l : list A) : x ∉ l -> x ∉ rev l.
Proof.
  intros Hx Hin. apply Hx.
  apply list_elem_of_In, in_rev, list_elem_of_In. done.
Qed.

(** A string is cut in one way only at its last occurrence of [x]. *)
Lemma cut_at_last {A} (x : A) (l1 l2 r1 r2 : list A) :
  l1 ++ x :: r1 = l2 ++ x :: r2 ->
  x ∉ r1 -> x ∉ r2 -> l1 = l2 /\ r1 = r2.
Proof.
  intros Heq Hr1 Hr2.
  apply (f_equal (@rev A)) in Heq.
  rewrite !rev_app_distr in Heq. simpl in Heq.
  rewrite <- !app_assoc in Heq. simpl in Heq.
  apply cut_at_first in Heq as [Hr Hl]; try by apply not_elem_of_rev.
  apply (f_equal (@rev A)) in Hr, Hl.
  rewrite !rev_involutive in Hr, Hl. done.
Qed.

(** X20: record ids do not collide.  Two chunks get the same id
    ["{source}_chunk_{chunk_id}"] only if they have the same source and
    the same [chunk_id]. *)
Theorem vector_id_injective (c1 c2 : Chunk) :
  vector_id c1 = vector_id c2 ->
  source c1 = source c2 /\ chunk_id c1 = chunk_id c2.
Proof.
  unfold vector_id.
  change (lit "_chunk_") with (lit "_chunk" ++ [95%N]).
  rewrite <- !app_assoc. simpl ([95%N] ++ _). rewrite !app_assoc.
  intros Heq.
  pose proof (str_of_int_no_underscore (chunk_id c1)) as H1.
  pose proof (str_of_int_no_underscore (chunk_id c2)) as H2.
  rewrite Forall_forall in H1, H2.
  apply cut_at_last in Heq as [Hsrc Hid].
  - split; [by apply app_inv_tail in Hsrc|].
    rewrite <- (int_of_str_of_int (chunk_id c1)),
            <- (int_of_str_of_int (chunk_id c2)).
    by rewrite Hid.
  - intros Hin. by apply (H1 _ Hin).
  - intros Hin. by apply (H2 _ Hin).
Qed.

Lemma vector_id_injective_witness :
  source Demo.one_chunk = lit "notes.txt" /\ chunk_id Demo.one_chunk = 0.
Proof.
  apply (vector_id_injective Demo.one_chunk
           (mkChunk (lit "other") 0 (lit "notes.txt") 7 12 ∅)).
  reflexivity.
Defined.

End StoreMore.

(** * [EndeeVectorStore.get_stats] *)

Module StoreStatsSpec.
Import Py Exn Store StoreFacts.

Section Stats.
Context {W Handle F V : Type} `{!@EndeeClient W Handle F}.

Local Abbreviation Env := (@Store.Env W Handle F).

Variable index_describe : Handle -> W -> result (gmap string V) * W.
Variable of_str : str -> V.

Local Abbreviation get_stats := (StoreStats.get_stats index_describe of_str).

(** X21: [get_stats] never raises.  It returns what [describe]
    returned; when the handle could not be resolved or [describe]
    raised [e], it returns the one-entry dict [{"error": str(e)}]. *)
Theorem get_stats_never_raises (env : Env) :
  exists stats,
    (get_stats env).1 = Ok stats /\
    match _get_index env with
    | (Ok h, env1) =>
        match index_describe h (env_world env1) with
        | (Ok info, w) =>
            stats = info /\
            (get_stats env).2 = mkEnv (env_store env1) w (env_trace env1)
        | (Raise e, w) =>
            stats = {[ "error"%string := of_str (exn_msg e) ]} /\
            (get_stats env).2 = mkEnv (env_store env1) w (env_trace env1)
        end
    | (Raise e, env1) =>
        stats = {[ "error"%string := of_str (exn_msg e) ]} /\
        (get_stats env).2 = env1
    end.
Proof.
  unfold StoreStats.get_stats, StoreStats.describe, Exn.try_except, Exn.bind, Exn.ret.
  destruct (_get_index env) as [[h|e] env1]; [|by eexists].
  destruct (index_describe h (env_world env1)) as [[info|e] w]; by eexists.
Qed.

End Stats.
End StoreStatsSpec.

(** * Further properties of the pipeline *)

Module PipelineMore.
Import Py PyFacts Exn Loader Chunker Store StoreFacts Pipeline.

Section Runs.
Context {W Handle F : Type}.
Context `{!@EndeeClient W Handle F} `{!@Services W F}.

Local Abbreviation Env := (@Store.Env W Handle F).
Local Abbreviation Event := (@Store.Event Handle F).
Local Abbreviation SearchResult := (@Store.SearchResult F).

(** X22: a blank question is rejected before anything else happens:
    [query] raises the [ValueError] of [embed_text] and makes no
    external call. *)
Theorem query_blank_question (self : RAGPipeline) question top_k_arg (env : Env) :
  Embedder.has_text question = false ->
  query self question top_k_arg env
  = (Raise (mkExn ValueError (lit "Cannot embed empty text")), env).
Proof.
  intros Hblank. unfold query, Embedder.embed_text.
  rewrite Hblank. reflexivity.
Qed.

(** X23: when the search returns no hit, [query] answers with the fixed
    text, no sources and [retrieved_chunks = 0], and calls no generation
    back end, whichever is configured. *)
Theorem query_no_results (self : RAGPipeline) question top_k_arg
    (env env1 : Env) query_embedding :
  Embedder.embed_text model_encode question = Ok query_embedding ->
  search float_zero query_embedding
    (PipelineSpec.effective_top_k self top_k_arg) None env = (Ok [], env1) ->
  query self question top_k_arg env
  = (Ok (mkResponse no_results_answer [] question 0), env1).
Proof.
  intros Hembed Hsearch. unfold query.
  fold (PipelineSpec.effective_top_k self top_k_arg).
  unfold Exn.bind at 1. unfold Exn.lift. rewrite Hembed.
  unfold Exn.bind at 1. rewrite Hsearch. reflexivity.
Qed.

(** X24: with the Ollama back end, the answer is the ["response"] field
    of the reply, and the text ["No response from Ollama"] when the
    reply has no such field; the call is made once, with the model name
    and the full prompt. *)
Theorem query_ollama_answer (self : RAGPipeline) question top_k_arg
    (env env1 : Env) query_embedding (results : list SearchResult)
    (response : option str) w :
  Embedder.embed_text model_encode question = Ok query_embedding ->
  search float_zero query_embedding
    (PipelineSpec.effective_top_k self top_k_arg) None env
    = (Ok results, env1) ->
  results <> [] ->
  _llm_type self = Some Ollama ->
  ollama_generate (llm_model self)
    (full_prompt (build_context results) question) (env_world env1)
    = (Ok response, w) ->
  query self question top_k_arg env
  = (Ok (mkResponse (default (lit "No response from Ollama") response)
           (map source_info results) question (len results)),
     mkEnv (env_store env1) w
       (env_trace env1
        ++ [mkEvent (CallGenerate (full_prompt (build_context results) question))
              true])).
Proof.
  intros Hembed Hsearch Hsome Hty Hcall. unfold query.
  fold (PipelineSpec.effective_top_k self top_k_arg).
  unfold Exn.bind at 1. unfold Exn.lift. rewrite Hembed.
  unfold Exn.bind at 1. rewrite Hsearch.
  assert (truthy results = true) as -> by (by apply truthy_true).
  cbn [negb]. rewrite Hty.
  unfold Exn.try_except, generate, Exn.bind, ext, Exn.ret.
  rewrite Hcall. reflexivity.
Qed.

(** X25: if embedding the chunks fails, [ingest_documents] raises that
    exception and has not touched the index: no listing, no create, no
    upsert. *)
Theorem ingest_embedding_failure fuel (self : RAGPipeline) directory
    recreate_index (env : Env) documents chunks e :
  load_directory directory = Ok documents ->
  documents <> [] ->
  chunk_documents fuel (chunker self) documents = Some chunks ->
  Embedder.embed_batch model_encode_batch (map content chunks) = Raise e ->
  ingest_documents fuel self directory recreate_index env
  = Some (Raise e, env).
Proof.
  intros Hload Hne Hchunks Hembed. unfold ingest_documents.
  rewrite Hload. assert (truthy documents = true) as -> by (by apply truthy_true).
  cbn [negb]. rewrite Hchunks.
  unfold Exn.bind, Exn.lift. rewrite Hembed. reflexivity.
Qed.

(** Actions that hand no record to the index, and those among them
    that return whenever every external call they made returned. *)
Definition silent {A} (m : Action Env A) : Prop :=
  forall env, exists evs,
    env_trace (m env).2 = env_trace env ++ evs /\ sent_records evs = [].

Definition returns_if_calls_do {A} (m : Action Env A) : Prop :=
  forall env, exists evs,
    env_trace (m env).2 = env_trace env ++ evs /\ sent_records evs = [] /\
    (all_ok evs -> is_ok (m env).1 = true).

Lemma returns_silent {A} (m : Action Env A) : returns_if_calls_do m -> silent m.
Proof. intros Hm env. destruct (Hm env) as (evs & ? & ? & _). by exists evs. Qed.

Lemma returns_pure {A} (m : Action Env A) :
  (forall env, is_ok (m env).1 = true /\ env_trace (m env).2 = env_trace env) ->
  returns_if_calls_do m.
Proof.
  intros Hm env. destruct (Hm env) as [Hok Htr]. exists [].
  by rewrite app_nil_r.
Qed.

Lemma silent_bind {A B} (m : Action Env A) (k : A -> Action Env B) :
  silent m -> (forall a, silent (k a)) -> silent (Exn.bind m k).
Proof.
  intros Hm Hk env. unfold Exn.bind.
  destruct (Hm env) as (evs1 & Htr1 & Hs1).
  destruct (m env) as [[a|e] env1]; simpl in *.
  - destruct (Hk a env1) as (evs2 & Htr2 & Hs2). exists (evs1 ++ evs2).
    rewrite Htr2, Htr1, app_assoc, sent_records_app, Hs1, Hs2. done.
  - by exists evs1.
Qed.

Lemma returns_bind {A B} (m : Action Env A) (k : A -> Action Env B) :
  returns_if_calls_do m -> (forall a, returns_if_calls_do (k a)) ->
  returns_if_calls_do (Exn.bind m k).
Proof.
  intros Hm Hk env. unfold Exn.bind.
  destruct (Hm env) as (evs1 & Htr1 & Hs1 & Hok1).
  destruct (m env) as [[a|e] env1]; simpl in *.
  - destruct (Hk a env1) as (evs2 & Htr2 & Hs2 & Hok2). exists (evs1 ++ evs2).
    rewrite Htr2, Htr1, app_assoc, sent_records_app, Hs1, Hs2.
    split; [done|]. split; [done|].
    intros [_ Hall]%Forall_app. by apply Hok2.
  - exists evs1. by repeat split.
Qed.

Lemma returns_ext {A} (c : @Call Handle F) (f : W -> result A * W) :
  (forall ok, batch_of (mkEvent c ok) = []) ->
  returns_if_calls_do (ext c f).
Proof.
  intros Hc env. unfold ext. destruct (f (env_world env)) as [r w]. simpl.
  eexists [_]. split; [reflexivity|].
  split; [unfold sent_records; simpl; by rewrite Hc|].
  by intros [Hok _]%Forall_cons.
Qed.

(** A [try] whose handler just returns a value returns. *)
Lemma returns_try {A} (m : Action Env A) (b : A) :
  silent m -> returns_if_calls_do (Exn.try_except m (fun _ => Exn.ret b)).
Proof.
  intros Hm env. unfold Exn.try_except, Exn.ret.
  destruct (Hm env) as (evs & Htr & Hs). exists evs.
  destruct (m env) as [[a|e] env1]; simpl in *; by repeat split.
Qed.

Lemma silent_lift {A} (r : result A) : @silent A (Exn.lift r).
Proof. intros env. exists []. by rewrite app_nil_r. Qed.

Lemma returns_set_index (h : option Handle) :
  @returns_if_calls_do unit (set_index h).
Proof. by apply returns_pure. Qed.

(** A run of [create_index]: it sends no record, and returns if every
    call it made returned. *)
Lemma create_index_run recreate (env : Env) :
  exists evs,
    env_trace (create_index recreate env).2 = env_trace env ++ evs /\
    sent_records evs = [] /\
    (all_ok evs -> (create_index recreate env).1 = Ok tt).
Proof.
  assert (returns_if_calls_do (create_index recreate)) as Hrun.
  { unfold create_index.
    apply returns_bind; [by apply returns_pure|]. intros name.
    apply returns_bind; [by apply returns_pure|]. intros dim.
    assert (returns_if_calls_do
              (Exn.bind (ext (CallGetIndex name) (client_get_index name))
                 (fun h => set_index (Some h)))) as Hget.
    { apply returns_bind; [by apply returns_ext|].
      intros h. apply returns_set_index. }
    assert (returns_if_calls_do
              (Exn.bind
                 (ext (CallCreateIndex name dim (lit "cosine") INT8D)
                    (client_create_index name dim (lit "cosine") INT8D))
                 (fun _ =>
                    Exn.bind (ext (CallGetIndex name) (client_get_index name))
                      (fun h => set_index (Some h))))) as Hcreate.
    { apply returns_bind; [by apply returns_ext|]. by intros _. }
    apply returns_bind.
    - apply returns_try. apply silent_bind.
      + apply returns_silent. by apply returns_ext.
      + intros entries. apply silent_lift.
    - intros [|]; [|exact Hcreate].
      destruct recreate; [|exact Hget].
      apply returns_bind; [by apply returns_ext|]. by intros _. }
  destruct (Hrun env) as (evs & Htr & Hs & Hok). exists evs.
  split; [done|]. split; [done|]. intros Hall. specialize (Hok Hall).
  by destruct (create_index recreate env) as [[[]|e] env1].
Qed.

(** A run of [upsert_chunks] on lists of equal length. *)
Lemma upsert_chunks_run chunks (embeddings : list (list F)) (env : Env) :
  length chunks = length embeddings ->
  exists evs,
    env_trace (upsert_chunks chunks embeddings env).2 = env_trace env ++ evs /\
    (all_ok evs ->
       (upsert_chunks chunks embeddings env).1 = Ok (len chunks) /\
       sent_records evs = zip_with make_record chunks embeddings).
Proof.
  intros Hlen. unfold upsert_chunks.
  assert ((len chunks =? len embeddings) = true) as ->
    by (apply Z.eqb_eq; unfold len; lia).
  cbn [negb].
  destruct (truthy chunks) eqn:Htr; cbn [negb].
  2:{ exists []. simpl. rewrite app_nil_r. destruct chunks; [|done].
      split; [done|]. intros _. by split. }
  unfold Exn.bind.
  destruct (get_index_run env) as (evs1 & Htr1 & Hsent1 & Hok1).
  destruct (_get_index env) as [[h|e] env1] eqn:Hget; simpl in *.
  - set (vectors := zip_with make_record chunks embeddings) in *.
    destruct (upsert_batches_run h vectors (range 0 (len vectors) batch_size)
                0 env1) as (evs2 & Htr2 & _ & Hok2).
    exists (evs1 ++ evs2). split; [by rewrite Htr2, Htr1, app_assoc|].
    intros Hall. apply Forall_app in Hall as [_ Hall2].
    destruct (Hok2 Hall2) as [Hr Hsent2].
    rewrite batches_cover in Hr, Hsent2. split.
    + rewrite Hr. f_equal. subst vectors. unfold len.
      rewrite length_zip_with. lia.
    + by rewrite sent_records_app, Hsent1, Hsent2.
  - exists evs1. split; [done|]. intros Hall.
    destruct (Hok1 Hall) as [h Hh]. discriminate Hh.
Qed.

(** X26: the stages of [ingest_documents] fit together.  Once the
    documents are loaded and chunked and the chunks embedded, the
    embeddings are as many as the chunks, so the length check of
    [upsert_chunks] passes; if every call to the vector store returns,
    the result is the number of chunks, and the records sent are one per
    chunk, in chunk order. *)
Theorem ingest_stores_every_chunk fuel (self : RAGPipeline) directory
    recreate_index (env : Env) documents chunks embeddings :
  load_directory directory = Ok documents ->
  documents <> [] ->
  chunk_documents fuel (chunker self) documents = Some chunks ->
  Embedder.embed_batch model_encode_batch (map content chunks) = Ok embeddings ->
  length embeddings = length chunks /\
  exists r env' evs,
    ingest_documents fuel self directory recreate_index env = Some (r, env') /\
    env_trace env' = env_trace env ++ evs /\
    (all_ok evs ->
       r = Ok (len chunks) /\
       sent_records evs = zip_with make_record chunks embeddings).
Proof.
  intros Hload Hne Hchunks Hembed.
  pose proof (EmbedderMore.embed_batch_length_aux _ _ _ Hembed) as Hlen.
  rewrite length_map in Hlen. split; [done|].
  unfold ingest_documents.
  rewrite Hload. assert (truthy documents = true) as -> by (by apply truthy_true).
  cbn [negb]. rewrite Hchunks.
  unfold Exn.bind at 1. unfold Exn.lift. rewrite Hembed.
  unfold Exn.bind.
  destruct (create_index_run recreate_index env) as (evs1 & Htr1 & Hsent1 & Hok1).
  destruct (create_index recreate_index env) as [[[]|e] env1] eqn:Hcreate;
    simpl in *.
  - destruct (upsert_chunks_run chunks embeddings env1 (eq_sym Hlen))
      as (evs2 & Htr2 & Hok2).
    destruct (upsert_chunks chunks embeddings env1) as [r env2] eqn:Hup.
    simpl in *. exists r, env2, (evs1 ++ evs2).
    split; [done|]. split; [by rewrite Htr2, Htr1, app_assoc|].
    intros Hall. apply Forall_app in Hall as [_ Hall2].
    destruct (Hok2 Hall2) as [-> Hsent2]. split; [done|].
    by rewrite sent_records_app, Hsent1, Hsent2.
  - eexists _, _, evs1. split; [reflexivity|]. split; [done|].
    intros Hall. by specialize (Hok1 Hall).
Qed.

End Runs.

(** *** The properties above on the example services *)

Definition one_document : list Document :=
  [ mkDocument (lit "A hash table maps keys to values.") (lit "notes.txt") ∅ ].

Lemma query_blank_question_witness :
  @query _ _ _ (Demo.client true true) (DemoServices.services [] true)
    (DemoServices.pipeline None) (lit "  ") None (Demo.env None)
  = (Raise (mkExn ValueError (lit "Cannot embed empty text")), Demo.env None).
Proof.
  apply (@query_blank_question _ _ _ (Demo.client true true)
           (DemoServices.services [] true)).
  reflexivity.
Defined.

Definition searched_env : @Env (list (@VectorRecord Z)) nat Z :=
  mkEnv (Demo.store (Some 7%nat)) []
    [mkEvent (CallQuery 7%nat (mkQueryParams [21] 5 128 None)) true].

Lemma query_no_results_witness :
  @query _ _ _ StoreMore.unlistable_client (DemoServices.services [] true)
    (DemoServices.pipeline (Some Ollama)) DemoServices.question None
    (Demo.env (Some 7%nat))
  = (Ok (mkResponse no_results_answer [] DemoServices.question 0),
     searched_env).
Proof.
  apply (@query_no_results _ _ _ StoreMore.unlistable_client
           (DemoServices.services [] true) (DemoServices.pipeline (Some Ollama))
           DemoServices.question None (Demo.env (Some 7%nat)) searched_env [21]);
    reflexivity.
Defined.

Lemma query_ollama_answer_witness :
  exists env',
    @query _ _ _ (Demo.client true true) (DemoServices.services [] true)
      (DemoServices.pipeline (Some Ollama)) DemoServices.question None
      (Demo.env (Some 7%nat))
    = (Ok (mkResponse (lit "generated")
             (map source_info [DemoServices.hit_result])
             DemoServices.question 1), env').
Proof.
  eexists.
  apply (@query_ollama_answer _ _ _ (Demo.client true true)
           (DemoServices.services [] true) (DemoServices.pipeline (Some Ollama))
           DemoServices.question None (Demo.env (Some 7%nat)) searched_env [21]
           [DemoServices.hit_result] (Some (lit "generated")) []);
    try reflexivity. discriminate.
Defined.

(** Services whose embedding model is down. *)
#[local] Instance services_without_model
    : @Services (list (@VectorRecord Z)) Z := {|
  load_directory _ := Ok one_document;
  model_encode _ := Raise Demo.refused;
  model_encode_batch _ := Raise Demo.refused;
  ollama_generate _ _ w := (Raise Demo.refused, w);
  gemini_generate _ w := (Raise Demo.refused, w);
  format_3f z := str_of_int z ++ lit ".000";
  float_zero := 0
|}.

Lemma ingest_embedding_failure_witness :
  @ingest_documents _ _ _ (Demo.client true true) services_without_model
    2 (DemoServices.pipeline None) (lit "data") true (Demo.env None)
  = Some (Raise Demo.refused, Demo.env None).
Proof.
  eapply (@ingest_embedding_failure _ _ _ (Demo.client true true)
            services_without_model 2 (DemoServices.pipeline None) (lit "data")
            true (Demo.env None) one_document);
    [reflexivity|discriminate|reflexivity|reflexivity].
Defined.

Lemma ingest_stores_every_chunk_witness :
  exists chunks embeddings r env' evs,
    length embeddings = length chunks /\
    length chunks = 1%nat /\
    @ingest_documents _ _ _ (Demo.client true true)
      (DemoServices.services one_document true)
      2 (DemoServices.pipeline None) (lit "data") false (Demo.env None)
    = Some (r, env') /\
    env_trace env' = env_trace (Demo.env None) ++ evs /\
    (all_ok evs ->
       r = Ok (len chunks) /\
       sent_records evs = zip_with make_record chunks embeddings).
Proof.
  destruct (chunk_documents 2 (mkTextChunker 1000 200) one_document)
    as [chunks|] eqn:Hchunks; [|by vm_compute in Hchunks].
  destruct (Embedder.embed_batch
              (fun batch : list str => Ok (map (fun t => [len t]) batch))
              (map content chunks)) as [embeddings|e] eqn:Hembed;
    [|vm_compute in Hchunks; injection Hchunks as <-; by vm_compute in Hembed].
  destruct (@ingest_stores_every_chunk _ _ _ (Demo.client true true)
              (DemoServices.services one_document true)
              2 (DemoServices.pipeline None) (lit "data") false (Demo.env None)
              one_document chunks embeddings eq_refl ltac:(discriminate)
              Hchunks Hembed)
    as (Hlen & r & env' & evs & Hrun & Htr & Hok).
  exists chunks, embeddings, r, env', evs.
  split; [exact Hlen|]. split; [|by split].
  vm_compute in Hchunks. by injection Hchunks as <-.
Defined.

End PipelineMore.

(** * [RAGPipeline.__init__] and [_init_llm] *)

Module PipelineInitSpec.
Import Py PyFacts Exn Chunker Pipeline.

Section Init.
Context {W Client : Type}.

Variable ollama_probe : W -> result Z * W.
Variable gemini_setup : str -> str -> W -> result Client * W.

Local Abbreviation _init_llm :=
  (PipelineInit._init_llm ollama_probe gemini_setup).
Local Abbreviation new_pipeline :=
  (PipelineInit.new_pipeline ollama_probe gemini_setup).

(** The probe was answered with status 200. *)
Definition ollama_up (w : W) : Prop := (ollama_probe w).1 = Ok 200.

(** X27: how the generation back end is selected.  Ollama is selected
    exactly when the probe is answered with status 200, and then the
    remote service is not contacted, key or no key; Gemini is selected
    exactly when the probe was not, a non-empty API key was given and the
    set-up returned. *)
Theorem init_llm_selection llm_api_key llm_model (w : W) :
  let out := _init_llm llm_api_key llm_model w in
  let w1 := (ollama_probe w).2 in
  (out.1.1 = Some Ollama <-> ollama_up w) /\
  (ollama_up w -> out = ((Some Ollama, None), w1)) /\
  (out.1.1 = Some Gemini <->
     ~ ollama_up w /\
     exists key, llm_api_key = Some key /\ key <> [] /\
       is_ok (gemini_setup key llm_model w1).1 = true).
Proof.
  cbn zeta. unfold PipelineInit._init_llm, ollama_up.
  destruct (ollama_probe w) as [[status|e] w1]; simpl.
  - destruct (Z.eqb_spec status 200) as [->|Hne]; simpl.
    + split; [done|]. split; [done|]. split; [done|]. by intros [? _].
    + assert (Ok status <> Ok 200) as Hno by congruence.
      destruct llm_api_key as [key|]; simpl.
      * destruct key as [|c key]; simpl.
        -- split; [done|]. split; [done|]. split; [done|].
           intros (_ & k & [= <-] & Hk & _). done.
        -- destruct (gemini_setup (c :: key) llm_model w1) as [[cl|e] w2] eqn:Hs;
             simpl.
           ++ split; [done|]. split; [done|]. split; [|done].
              intros _. split; [done|]. exists (c :: key). by rewrite Hs.
           ++ split; [done|]. split; [done|]. split; [done|].
              intros (_ & k & [= <-] & _ & Hok). by rewrite Hs in Hok.
      * split; [done|]. split; [done|]. split; [done|].
        intros (_ & k & [=] & _).
  - destruct llm_api_key as [key|]; simpl.
    + destruct key as [|c key]; simpl.
      * split; [done|]. split; [done|]. split; [done|].
        intros (_ & k & [= <-] & Hk & _). done.
      * destruct (gemini_setup (c :: key) llm_model w1) as [[cl|e'] w2] eqn:Hs;
          simpl.
        -- split; [done|]. split; [done|]. split; [|done].
           intros _. split; [done|]. exists (c :: key). by rewrite Hs.
        -- split; [done|]. split; [done|]. split; [done|].
           intros (_ & k & [= <-] & _ & Hok). by rewrite Hs in Hok.
    + split; [done|]. split; [done|]. split; [done|].
      intros (_ & k & [=] & _).
Qed.

(** X28: a pipeline cannot be built with [chunk_overlap >= chunk_size]:
    the constructor raises [ValueError] before the back ends are probed.
    Otherwise it returns a pipeline whose chunker holds the two sizes
    and whose back end is the one [_init_llm] selects. *)
Theorem new_pipeline_validates llm_api_key llm_model
    (chunk_size chunk_overlap top_k : Z) (w : W) :
  (chunk_size <= chunk_overlap ->
     new_pipeline llm_api_key llm_model chunk_size chunk_overlap top_k w
     = (Raise (mkExn ValueError
                 (lit "chunk_overlap must be less than chunk_size")), w)) /\
  (chunk_overlap < chunk_size ->
     exists client,
       new_pipeline llm_api_key llm_model chunk_size chunk_overlap top_k w
       = (Ok (mkPipeline llm_model top_k
                (mkTextChunker chunk_size chunk_overlap)
                (_init_llm llm_api_key llm_model w).1.1, client),
          (_init_llm llm_api_key llm_model w).2)).
Proof.
  unfold PipelineInit.new_pipeline, Chunker.init.
  destruct (Z.geb_spec chunk_overlap chunk_size) as [Hge|Hlt].
  - split; [done|]. intros Hlt. lia.
  - split; [intros Hge; lia|]. intros _.
    destruct (PipelineInit._init_llm ollama_probe gemini_setup
                llm_api_key llm_model w) as [[ty client] w'].
    by exists client.
Qed.

End Init.
End PipelineInitSpec.

(** * The document loader *)

Module LoaderSpec.
Import Py LoaderModel.

Section Loader.
Context {Path E : Type} `{FS : FileSystem Path E}.







End Loader.

(** A directory [docs] with a text file, a PDF that [pypdf] cannot open
    and a file of another type. *)
Definition tree : list str :=
  [lit "docs/a.txt"; lit "docs/b.pdf"; lit "docs/c.bin"].

#[local] Instance docs_directory : FileSystem str unit := {|
  path_of p := p;
  str_of p := p;
  path_of_str_of p := eq_refl;
  exists_ p := bool_decide (p ∈ lit "docs" :: tree);
  is_dir p := bool_decide (p = lit "docs");
  is_file p := bool_decide (p ∈ tree);
  name p := drop 5 p;
  suffix p := if bool_decide (p ∈ tree) then drop 6 p else [];
  absolute p := lit "/srv/" ++ p;
  st_size p := Ok (len p);
  rglob_all p := Ok (if bool_decide (p = lit "docs") then tree else []);
  read_utf8 p := Ok (lit "Stacks and queues.");
  pdf_page_texts p := Raise (LibraryError tt);
  lower s := s
|}.


End LoaderSpec.
